(** * mb-forwarder: a Modbus TCP gateway

    A shallow embedding of [config.go] and [forwarder.go].

    - Go's [byte] is [Byte.byte]; [int], [uint16] and [time.Duration] are [Z]
      with the conversions of the source written out ([byte_of_Z],
      [uint16], [int64]).
    - [map[byte]T] is a [gmap byte T]; a [range] over a map walks
      [map_to_list] (Go leaves the order unspecified).
    - The backends, the clock and the log are the outside world: a handler
      runs in the monad [M], which reads an environment [Env] (what each
      backend answers during this invocation, what [time.Now] returns) and
      threads a [World] (the forwarder, the log written so far and the trace
      of calls made on backend clients). *)

From Stdlib Require Import ZArith Lia List.
From Stdlib Require Import Strings.Byte.
From stdpp Require Import base countable gmap strings list fin_maps.

Open Scope Z_scope.

(** ** Go scalars *)

Module Go.

Definition byte_to_Z (b : byte) : Z := Z.of_N (Byte.to_N b).

(** [byte(x)]: truncation to the low 8 bits. *)
Definition byte_of_Z (z : Z) : byte :=
  match Byte.of_N (Z.to_N (z mod 256)) with
  | Some b => b
  | None => x00
  end.

(** [uint16(x)] *)
Definition uint16 (z : Z) : Z := z mod 65536.

(** 64-bit signed wrap-around ([int], [time.Duration]). *)
Definition int64 (z : Z) : Z := (z + 2 ^ 63) mod 2 ^ 64 - 2 ^ 63.

(** [time.Second], in nanoseconds. *)
Definition Second : Z := 1000000000.

(** [l[i]] where the source has already checked [i < len(l)]. *)
Definition at_ (l : list byte) (i : nat) : byte := nth i l x00.

(** [int(hi)<<8 | int(lo)] *)
Definition be16 (hi lo : byte) : Z :=
  Z.lor (Z.shiftl (byte_to_Z hi) 8) (byte_to_Z lo).

(** [l[lo:hi]] for [lo <= hi <= len(l)]. *)
Definition slice {A} (l : list A) (lo hi : nat) : list A :=
  take (hi - lo) (drop lo l).

End Go.
Import Go.

#[global] Instance byte_eq_dec : EqDecision byte := Byte.byte_eq_dec.

#[global] Instance byte_countable : Countable byte :=
  inj_countable Byte.to_N Byte.of_N Byte.of_to_N.

(** ** config.go *)

Record Server := {
  ConnType : string;
  SlaveID : Z;
  Addr : string;
  Port : Z;
  BaudRate : Z;
  DataBits : Z;
  StopBits : Z;
  Parity : string;
  Timeout : Z
}.

Record Config := {
  ListenPort : Z;
  Servers : gmap byte Server
}.

Inductive error :=
| ErrConfigPathRequired
| ErrNoServers
| ErrInvalidSlaveID (slaveID : byte)
| ErrConnTypeRequired (slaveID : byte)
| ErrInvalidConnType (slaveID : byte) (connType : string)
| ErrAddrRequiredTCP (slaveID : byte)
| ErrAddrRequiredRTU (slaveID : byte)
| ErrCreateHandler (connType : string)
| ErrCreateClient (slaveID : byte) (cause : error)
| ErrInsufficientData
| ErrNoSlaveID
| ErrSlaveNotConfigured (slaveID : byte)
| ErrInsufficientByteCount.

Definition set_Port (v : Z) (s : Server) : Server :=
  {| ConnType := ConnType s; SlaveID := SlaveID s; Addr := Addr s; Port := v;
     BaudRate := BaudRate s; DataBits := DataBits s; StopBits := StopBits s;
     Parity := Parity s; Timeout := Timeout s |}.
Definition set_BaudRate (v : Z) (s : Server) : Server :=
  {| ConnType := ConnType s; SlaveID := SlaveID s; Addr := Addr s; Port := Port s;
     BaudRate := v; DataBits := DataBits s; StopBits := StopBits s;
     Parity := Parity s; Timeout := Timeout s |}.
Definition set_DataBits (v : Z) (s : Server) : Server :=
  {| ConnType := ConnType s; SlaveID := SlaveID s; Addr := Addr s; Port := Port s;
     BaudRate := BaudRate s; DataBits := v; StopBits := StopBits s;
     Parity := Parity s; Timeout := Timeout s |}.
Definition set_StopBits (v : Z) (s : Server) : Server :=
  {| ConnType := ConnType s; SlaveID := SlaveID s; Addr := Addr s; Port := Port s;
     BaudRate := BaudRate s; DataBits := DataBits s; StopBits := v;
     Parity := Parity s; Timeout := Timeout s |}.
Definition set_Parity (v : string) (s : Server) : Server :=
  {| ConnType := ConnType s; SlaveID := SlaveID s; Addr := Addr s; Port := Port s;
     BaudRate := BaudRate s; DataBits := DataBits s; StopBits := StopBits s;
     Parity := v; Timeout := Timeout s |}.
Definition set_Timeout (v : Z) (s : Server) : Server :=
  {| ConnType := ConnType s; SlaveID := SlaveID s; Addr := Addr s; Port := Port s;
     BaudRate := BaudRate s; DataBits := DataBits s; StopBits := StopBits s;
     Parity := Parity s; Timeout := v |}.

(** [validateServer] takes [server] by value: the assignments of the
    defaults change the callee's copy.  The function returns only an
    [error]; the model also returns the final value of the local copy, so
    that what happens to it is visible at the call site. *)
Definition validateServer (slaveID : byte) (server : Server)
  : Server * option error :=
  if (byte_to_Z slaveID <? 1) || (255 <? byte_to_Z slaveID) then
    (server, Some (ErrInvalidSlaveID slaveID))
  else if bool_decide (ConnType server = ""%string) then
    (server, Some (ErrConnTypeRequired slaveID))
  else if bool_decide (ConnType server ≠ "tcp"%string)
          && bool_decide (ConnType server ≠ "rtu"%string) then
    (server, Some (ErrInvalidConnType slaveID (ConnType server)))
  else
    let after_transport : Server * option error :=
      if bool_decide (ConnType server = "tcp"%string) then
        if bool_decide (Addr server = ""%string) then
          (server, Some (ErrAddrRequiredTCP slaveID))
        else
          (if Port server <=? 0 then set_Port 502 server else server, None)
      else if bool_decide (ConnType server = "rtu"%string) then
        if bool_decide (Addr server = ""%string) then
          (server, Some (ErrAddrRequiredRTU slaveID))
        else
          let server := if BaudRate server <=? 0
                        then set_BaudRate 9600 server else server in
          let server := if DataBits server <=? 0
                        then set_DataBits 8 server else server in
          let server := if StopBits server <=? 0
                        then set_StopBits 1 server else server in
          let server := if bool_decide (Parity server = ""%string)
                        then set_Parity "N" server else server in
          (server, None)
      else (server, None) in
    match after_transport with
    | (server, Some err) => (server, Some err)
    | (server, None) =>
        (if Timeout server <=? 0 then set_Timeout 2 server else server, None)
    end.

(** The loop of [validateConfig]: [server] is the loop variable, a copy of
    the map's value; the copy [validateServer] worked on is dropped. *)
Fixpoint validateServers (entries : list (byte * Server)) : option error :=
  match entries with
  | [] => None
  | (slaveID, server) :: rest =>
      match validateServer slaveID server with
      | (_, Some err) => Some err
      | (_, None) => validateServers rest
      end
  end.

(** [validateConfig] works on the global [C]: it is given the value of [C]
    and returns the new one with the error. *)
Definition validateConfig (C : Config) : Config * option error :=
  let C := if ListenPort C <=? 0
           then {| ListenPort := 1602; Servers := Servers C |} else C in
  if (size (Servers C) =? 0)%nat then (C, Some ErrNoServers)
  else (C, validateServers (map_to_list (Servers C))).

(** What the file system and the YAML decoder hand to [loadConfig]: the
    file cannot be read; the decoder fails, leaving in [C] the fields it
    had decoded; the decoder succeeds. *)
Inductive FileResult :=
| ReadFailed
| UnmarshalFailed (partial : Config)
| Unmarshalled (c : Config).

Definition zeroConfig : Config := {| ListenPort := 0; Servers := ∅ |}.

Inductive LoadError :=
| LoadPathRequired
| LoadReadFailed
| LoadParseFailed
| LoadValidationFailed (cause : error).

(** [loadConfig]: returns the global [C] as it is left, and the error. *)
Definition loadConfig (fs : string → FileResult) (path : string)
  : Config * option LoadError :=
  if bool_decide (path = ""%string) then (zeroConfig, Some LoadPathRequired)
  else match fs path with
       | ReadFailed => (zeroConfig, Some LoadReadFailed)
       | UnmarshalFailed partial => (partial, Some LoadParseFailed)
       | Unmarshalled C =>
           match validateConfig C with
           | (C, Some err) => (C, Some (LoadValidationFailed err))
           | (C, None) => (C, None)
           end
       end.

(** ** The mbserver interface used by forwarder.go *)

Module mbserver.

Inductive Exception :=
| Success
| IllegalFunction
| IllegalDataAddress
| IllegalDataValue
| SlaveDeviceFailure.

Definition code (e : Exception) : byte :=
  match e with
  | Success => x00
  | IllegalFunction => x01
  | IllegalDataAddress => x02
  | IllegalDataValue => x03
  | SlaveDeviceFailure => x04
  end.

(** The [Framer] interface: the two methods the forwarder calls, and the
    function code the server dispatches on. *)
Class Framer (F : Type) := {
  Bytes : F → list byte;
  GetData : F → list byte;
  GetFunction : F → byte
}.

(** A Modbus-TCP frame: the 7-byte MBAP header (transaction identifier,
    protocol identifier, length, unit identifier), the function code and
    the data. *)
Record TCPFrame := {
  TransactionIdentifier : Z;
  ProtocolIdentifier : Z;
  Device : byte;
  FunctionCode : byte;
  Data : list byte
}.

Definition PutUint16 (v : Z) : list byte :=
  [byte_of_Z (Z.shiftr (uint16 v) 8); byte_of_Z (uint16 v)].

#[global] Instance TCPFrame_Framer : Framer TCPFrame := {
  Bytes frame :=
    PutUint16 (TransactionIdentifier frame)
    ++ PutUint16 (ProtocolIdentifier frame)
    ++ PutUint16 (2 + Z.of_nat (length (Data frame)))
    ++ [Device frame; FunctionCode frame]
    ++ Data frame;
  GetData frame := Data frame;
  GetFunction frame := FunctionCode frame
}.

(** A frame given by what its methods return, for any other
    implementation of the interface. *)
Record RawFrame := {
  rawBytes : list byte;
  rawFunction : byte;
  rawData : list byte
}.

#[global] Instance RawFrame_Framer : Framer RawFrame := {
  Bytes := rawBytes;
  GetData := rawData;
  GetFunction := rawFunction
}.

End mbserver.
Import mbserver.

(** ** The goburrow/modbus client interface *)

Module modbus.

(** A call of one of the eight methods of [modbus.Client], with its
    arguments ([address], [quantity] and [value] are [uint16]). *)
Inductive Call :=
| ReadCoils (address quantity : Z)
| ReadDiscreteInputs (address quantity : Z)
| ReadHoldingRegisters (address quantity : Z)
| ReadInputRegisters (address quantity : Z)
| WriteSingleCoil (address value : Z)
| WriteSingleRegister (address value : Z)
| WriteMultipleCoils (address quantity : Z) (value : list byte)
| WriteMultipleRegisters (address quantity : Z) (value : list byte).

(** [(results []byte, err error)]: the result bytes, or the error, kept
    as its message ([err.Error()]). *)
Inductive Result :=
| Ok (results : list byte)
| Err (message : string).

(** The client handler of a connection, with the fields [createClient]
    sets, and whether [Close] has been called on it. *)
Inductive Transport := TCP | RTU.

Record ClientHandler := {
  Kind : Transport;
  Address : string * Z;
  HBaudRate : Z;
  HDataBits : Z;
  HStopBits : Z;
  HParity : string;
  HTimeout : Z;
  SlaveId : byte;
  Closed : bool
}.

Definition NewTCPClientHandler (addr : string * Z) : ClientHandler :=
  {| Kind := TCP; Address := addr; HBaudRate := 0; HDataBits := 0;
     HStopBits := 0; HParity := ""; HTimeout := 0; SlaveId := x00;
     Closed := false |}.

Definition NewRTUClientHandler (addr : string) : ClientHandler :=
  {| Kind := RTU; Address := (addr, 0); HBaudRate := 0; HDataBits := 0;
     HStopBits := 0; HParity := ""; HTimeout := 0; SlaveId := x00;
     Closed := false |}.

Definition Close (h : ClientHandler) : ClientHandler :=
  {| Kind := Kind h; Address := Address h; HBaudRate := HBaudRate h;
     HDataBits := HDataBits h; HStopBits := HStopBits h;
     HParity := HParity h; HTimeout := HTimeout h; SlaveId := SlaveId h;
     Closed := true |}.

End modbus.
Import modbus.

(** ** forwarder.go: the data *)

Record modbusClient := {
  handler : ClientHandler;
  connType : string;
  addr : string;
  port : Z;
  baudRate : Z;
  dataBits : Z;
  stopBits : Z;
  parity : string;
  timeout : Z;
  lastError : option string;
  lastConn : Z
}.

Definition set_handler (h : ClientHandler) (c : modbusClient) : modbusClient :=
  {| handler := h; connType := connType c; addr := addr c; port := port c;
     baudRate := baudRate c; dataBits := dataBits c; stopBits := stopBits c;
     parity := parity c; timeout := timeout c; lastError := lastError c;
     lastConn := lastConn c |}.
Definition set_lastError (e : option string) (c : modbusClient) : modbusClient :=
  {| handler := handler c; connType := connType c; addr := addr c;
     port := port c; baudRate := baudRate c; dataBits := dataBits c;
     stopBits := stopBits c; parity := parity c; timeout := timeout c;
     lastError := e; lastConn := lastConn c |}.
Definition set_lastConn (t : Z) (c : modbusClient) : modbusClient :=
  {| handler := handler c; connType := connType c; addr := addr c;
     port := port c; baudRate := baudRate c; dataBits := dataBits c;
     stopBits := stopBits c; parity := parity c; timeout := timeout c;
     lastError := lastError c; lastConn := t |}.

Record Forwarder := {
  config : Config;
  clients : gmap byte modbusClient
}.

Definition set_clients (cs : gmap byte modbusClient) (s : Forwarder) : Forwarder :=
  {| config := config s; clients := cs |}.

Definition NewForwarder (config : Config) : Forwarder :=
  {| config := config; clients := ∅ |}.

(** ** The outside world *)

(** The eight request kinds, for the log lines. *)
Inductive Op :=
| OpReadCoils | OpReadDiscreteInputs | OpReadHoldingRegisters
| OpReadInputRegisters | OpWriteSingleCoil | OpWriteSingleRegister
| OpWriteMultipleCoils | OpWriteMultipleRegisters.

(** The lines [log.Printf] writes, by format string, with the arguments;
    the third argument of the write-single-coil lines is [coilValue]. *)
Inductive LogLine :=
| LogParseFailed (op : Op) (err : error)
| LogGetClientFailed (err : error)
| LogFailed (op : Op) (slaveID : byte) (address arg : Z) (err : string)
| LogSuccess (op : Op) (slaveID : byte) (address arg : Z)
| LogWriteSingleCoilFailed (slaveID : byte) (address : Z) (coilValue : bool)
    (err : string)
| LogWriteSingleCoilSuccess (slaveID : byte) (address : Z) (coilValue : bool)
| LogInitialized (slaveID : byte) (connType : string)
| LogConnectionException (slaveID : byte) (err : string)
| LogConnectionRestored (slaveID : byte)
| LogStopped.

(** What the world answers during one invocation: the result each backend
    (by the unit identifier of the client handler) gives to a call, and the
    time [time.Now] returns. *)
Record Env := {
  backend : byte → Call → Result;
  now : Z
}.

Record World := {
  fwd : Forwarder;
  logs : list LogLine;
  calls : list (byte * Call)
}.

Definition M (A : Type) : Type := Env → World → A * World.

Definition ret {A} (a : A) : M A := fun _ w => (a, w).

Definition bind {A B} (m : M A) (k : A → M B) : M B :=
  fun env w => let '(a, w') := m env w in k a env w'.

(** [M] is a monad for stdpp's [x ← m; k] notation. *)
#[global] Instance M_ret : MRet M := @ret.
#[global] Instance M_bind : MBind M := fun A B k m => bind m k.

Definition self : M Forwarder := fun _ w => (fwd w, w).

Definition timeNow : M Z := fun env w => (now env, w).

Definition logPrintf (l : LogLine) : M unit :=
  fun _ w => (tt, {| fwd := fwd w; logs := logs w ++ [l]; calls := calls w |}).

(** A call of a method of [client.client]: it goes to the backend the
    client's handler addresses and is recorded in the trace. *)
Definition clientCall (client : modbusClient) (c : Call) : M Result :=
  fun env w =>
    let unit := SlaveId (handler client) in
    (backend env unit c,
     {| fwd := fwd w; logs := logs w; calls := calls w ++ [(unit, c)] |}).

(** An assignment through the pointer [s.clients[slaveID]]. *)
Definition storeClient (slaveID : byte) (client : modbusClient) : M unit :=
  fun _ w =>
    (tt, {| fwd := set_clients (<[slaveID := client]> (clients (fwd w))) (fwd w);
            logs := logs w; calls := calls w |}).

(** [for k, v := range m { body }] in [M]. *)
Fixpoint forRange {K V} (entries : list (K * V)) (body : K → V → M unit)
  : M unit :=
  match entries with
  | [] => mret tt
  | (k, v) :: rest => body k v;; forRange rest body
  end.

(** ** forwarder.go: the client connections *)

Definition createClient (slaveID : byte) (config : Server)
  : modbusClient + error :=
  let timeout := int64 (int64 (Timeout config) * Second) in
  let handler : option ClientHandler :=
    if bool_decide (ConnType config = "tcp"%string)
       || bool_decide (ConnType config = "TCP"%string) then
      let h := NewTCPClientHandler (Addr config, Port config) in
      Some {| Kind := Kind h; Address := Address h; HBaudRate := HBaudRate h;
              HDataBits := HDataBits h; HStopBits := HStopBits h;
              HParity := HParity h; HTimeout := timeout;
              SlaveId := slaveID; Closed := Closed h |}
    else if bool_decide (ConnType config = "rtu"%string)
            || bool_decide (ConnType config = "RTU"%string) then
      let h := NewRTUClientHandler (Addr config) in
      Some {| Kind := Kind h; Address := Address h;
              HBaudRate := BaudRate config; HDataBits := DataBits config;
              HStopBits := StopBits config; HParity := Parity config;
              HTimeout := timeout; SlaveId := slaveID; Closed := Closed h |}
    else None in
  match handler with
  | None => inr (ErrCreateHandler (ConnType config))
  | Some handler =>
      inl {| handler := handler; connType := ConnType config;
             addr := Addr config; port := Port config;
             baudRate := BaudRate config; dataBits := DataBits config;
             stopBits := StopBits config; parity := Parity config;
             timeout := timeout; lastError := None; lastConn := 0 |}
  end.

Fixpoint initClientsLoop (entries : list (byte * Server)) : M (option error) :=
  match entries with
  | [] => mret None
  | (slaveID, serverConfig) :: rest =>
      match createClient slaveID serverConfig with
      | inr err => mret (Some (ErrCreateClient slaveID err))
      | inl client =>
          storeClient slaveID client;;
          logPrintf (LogInitialized slaveID (ConnType serverConfig));;
          initClientsLoop rest
      end
  end.

Definition initClients : M (option error) :=
  s ← self;
  initClientsLoop (map_to_list (Servers (config s))).

Definition getClient (s : Forwarder) (slaveID : byte) : modbusClient + error :=
  match clients s !! slaveID with
  | Some client => inl client
  | None => inr (ErrSlaveNotConfigured slaveID)
  end.

(** [Stop]: every client's handler is a TCP or an RTU handler, and is
    closed. *)
Definition Stop : M unit :=
  s ← self;
  forRange (map_to_list (clients s))
    (fun slaveID client =>
       storeClient slaveID (set_handler (Close (handler client)) client));;
  logPrintf LogStopped.

(** ** forwarder.go: the health monitor *)

(** The body of the loop of [checkConnections]. *)
Definition checkConnection (slaveID : byte) (client : modbusClient) : M unit :=
  r ← clientCall client (ReadHoldingRegisters 1 1);
  match r with
  | Err err =>
      if match lastError client with
         | None => true
         | Some last => bool_decide (last ≠ err)
         end
      then
        logPrintf (LogConnectionException slaveID err);;
        storeClient slaveID (set_lastError (Some err) client)
      else mret tt
  | Ok _ =>
      client ← match lastError client with
               | Some _ =>
                   logPrintf (LogConnectionRestored slaveID);;
                   storeClient slaveID (set_lastError None client);;
                   mret (set_lastError None client)
               | None => mret client
               end;
      t ← timeNow;
      storeClient slaveID (set_lastConn t client)
  end.

Definition checkConnections : M unit :=
  s ← self;
  forRange (map_to_list (clients s)) checkConnection.

(** [monitorConnections]: one [checkConnections] per tick of the ticker,
    each in the environment of its tick, until the context is done (the end
    of the list). *)
Fixpoint monitorConnections (ticks : list Env) (w : World) : World :=
  match ticks with
  | [] => w
  | env :: rest => monitorConnections rest (checkConnections env w).2
  end.

(** ** forwarder.go: decoding the requests *)

Section Handlers.

Context {F : Type} `{Framer F}.

Definition getSlaveID (frame : F) : byte :=
  if (length (Bytes frame) <? 7)%nat then x00 else at_ (Bytes frame) 6.

Definition parseRequest (s : Forwarder) (frame : F)
  : (byte * Z * Z) + error :=
  let data := GetData frame in
  if (length data <? 4)%nat then inr ErrInsufficientData
  else
    let frameSlaveID := getSlaveID frame in
    if bool_decide (frameSlaveID = x00) then inr ErrNoSlaveID
    else match Servers (config s) !! frameSlaveID with
         | None => inr (ErrSlaveNotConfigured frameSlaveID)
         | Some _ =>
             let address := be16 (at_ data 0) (at_ data 1) in
             let quantity := be16 (at_ data 2) (at_ data 3) in
             inl (frameSlaveID, address, quantity)
         end.

Definition parseWriteSingleRequest (s : Forwarder) (frame : F)
  : (byte * Z * Z) + error :=
  let data := GetData frame in
  if (length data <? 4)%nat then inr ErrInsufficientData
  else
    let frameSlaveID := getSlaveID frame in
    if bool_decide (frameSlaveID = x00) then inr ErrNoSlaveID
    else match Servers (config s) !! frameSlaveID with
         | None => inr (ErrSlaveNotConfigured frameSlaveID)
         | Some _ =>
             let address := be16 (at_ data 0) (at_ data 1) in
             let value := be16 (at_ data 2) (at_ data 3) in
             inl (frameSlaveID, address, value)
         end.

Definition parseWriteMultipleRequest (s : Forwarder) (frame : F)
  : (byte * Z * Z * list byte) + error :=
  let frameData := GetData frame in
  if (length frameData <? 6)%nat then inr ErrInsufficientData
  else
    let frameSlaveID := getSlaveID frame in
    if bool_decide (frameSlaveID = x00) then inr ErrNoSlaveID
    else match Servers (config s) !! frameSlaveID with
         | None => inr (ErrSlaveNotConfigured frameSlaveID)
         | Some _ =>
             let address := be16 (at_ frameData 0) (at_ frameData 1) in
             let quantity := be16 (at_ frameData 2) (at_ frameData 3) in
             let byteCount := byte_to_Z (at_ frameData 4) in
             if Z.of_nat (length frameData) <? 5 + byteCount
             then inr ErrInsufficientByteCount
             else
               let data := slice frameData 5 (5 + Z.to_nat byteCount) in
               inl (frameSlaveID, address, quantity, data)
         end.

(** ** forwarder.go: the function code handlers *)

Definition Handler : Type := F → M (list byte * Exception).

(** The response of the two bit reads: [make([]byte, 1+len(results))],
    the count in byte 0, [results] copied behind it. *)
Definition bitsResponse (results : list byte) : list byte :=
  byte_of_Z (Z.of_nat (length results)) :: results.

(** The response of the two register reads: [make([]byte,
    1+len(results))], [byte(len(results) * 2)] in byte 0, and each byte of
    [results] stored at [1+i]. *)
Definition registersResponse (results : list byte) : list byte :=
  byte_of_Z (Z.of_nat (length results) * 2) :: results.

(** [readCoils], [readDiscreteInputs], [readHoldingRegisters] and
    [readInputRegisters] are one text up to the client method called, the
    name in the log lines and the layout of the response. *)
Definition readHandler (op : Op) (method : Z → Z → Call)
    (response : list byte → list byte) : Handler := fun frame =>
  s ← self;
  match parseRequest s frame with
  | inr err =>
      logPrintf (LogParseFailed op err);;
      mret ([], IllegalDataAddress)
  | inl (slaveID, address, quantity) =>
      match getClient s slaveID with
      | inr err =>
          logPrintf (LogGetClientFailed err);;
          mret ([], SlaveDeviceFailure)
      | inl client =>
          r ← clientCall client (method (uint16 address) (uint16 quantity));
          match r with
          | Err err =>
              logPrintf (LogFailed op slaveID address quantity err);;
              mret ([], SlaveDeviceFailure)
          | Ok results => mret (response results, Success)
          end
      end
  end.

Definition readCoils : Handler :=
  readHandler OpReadCoils ReadCoils bitsResponse.

Definition readDiscreteInputs : Handler :=
  readHandler OpReadDiscreteInputs ReadDiscreteInputs bitsResponse.

Definition readHoldingRegisters : Handler :=
  readHandler OpReadHoldingRegisters ReadHoldingRegisters registersResponse.

Definition readInputRegisters : Handler :=
  readHandler OpReadInputRegisters ReadInputRegisters registersResponse.

Definition writeSingleCoil : Handler := fun frame =>
  s ← self;
  match parseWriteSingleRequest s frame with
  | inr err =>
      logPrintf (LogParseFailed OpWriteSingleCoil err);;
      mret ([], IllegalDataAddress)
  | inl (slaveID, address, value) =>
      match getClient s slaveID with
      | inr err =>
          logPrintf (LogGetClientFailed err);;
          mret ([], SlaveDeviceFailure)
      | inl client =>
          let coilValue := value =? 65280 in
          r ← clientCall client (WriteSingleCoil (uint16 address) (uint16 value));
          match r with
          | Err err =>
              logPrintf (LogWriteSingleCoilFailed slaveID address coilValue err);;
              mret ([], SlaveDeviceFailure)
          | Ok _ =>
              logPrintf (LogWriteSingleCoilSuccess slaveID address coilValue);;
              mret (slice (GetData frame) 0 4, Success)
          end
      end
  end.

Definition writeSingleRegister : Handler := fun frame =>
  s ← self;
  match parseWriteSingleRequest s frame with
  | inr err =>
      logPrintf (LogParseFailed OpWriteSingleRegister err);;
      mret ([], IllegalDataAddress)
  | inl (slaveID, address, value) =>
      match getClient s slaveID with
      | inr err =>
          logPrintf (LogGetClientFailed err);;
          mret ([], SlaveDeviceFailure)
      | inl client =>
          r ← clientCall client
                (WriteSingleRegister (uint16 address) (uint16 value));
          match r with
          | Err err =>
              logPrintf (LogFailed OpWriteSingleRegister slaveID address value err);;
              mret ([], SlaveDeviceFailure)
          | Ok _ =>
              logPrintf (LogSuccess OpWriteSingleRegister slaveID address value);;
              mret (slice (GetData frame) 0 4, Success)
          end
      end
  end.

(** The first loop of [writeMultipleCoils]: [coils[i]] is bit [i % 8] of
    [data[i / 8]] when that byte exists. *)
Definition unpackCoils (quantity : nat) (data : list byte) : list bool :=
  foldl (fun coils i =>
           let byteIndex := (i / 8)%nat in
           let bitIndex := (i mod 8)%nat in
           if (byteIndex <? length data)%nat then
             <[i := negb (Z.land (byte_to_Z (at_ data byteIndex))
                            (byte_to_Z (byte_of_Z (Z.shiftl 1 (Z.of_nat bitIndex))))
                          =? 0)]> coils
           else coils)
        (replicate quantity false) (seq 0 quantity).

(** The second loop: [coilBytes[i / 8] |= 1 << (i % 8)] for each set
    coil. *)
Definition packCoils (quantity : nat) (coils : list bool) : list byte :=
  foldl (fun coilBytes i =>
           if nth i coils false then
             let byteIndex := (i / 8)%nat in
             let bitIndex := (i mod 8)%nat in
             <[byteIndex :=
                 byte_of_Z (Z.lor (byte_to_Z (at_ coilBytes byteIndex))
                              (Z.shiftl 1 (Z.of_nat bitIndex)))]> coilBytes
           else coilBytes)
        (replicate ((quantity + 7) / 8) x00) (seq 0 quantity).

Definition writeMultipleCoils : Handler := fun frame =>
  s ← self;
  match parseWriteMultipleRequest s frame with
  | inr err =>
      logPrintf (LogParseFailed OpWriteMultipleCoils err);;
      mret ([], IllegalDataAddress)
  | inl (slaveID, address, quantity, data) =>
      match getClient s slaveID with
      | inr err =>
          logPrintf (LogGetClientFailed err);;
          mret ([], SlaveDeviceFailure)
      | inl client =>
          let coils := unpackCoils (Z.to_nat quantity) data in
          let coilBytes := packCoils (Z.to_nat quantity) coils in
          r ← clientCall client
                (WriteMultipleCoils (uint16 address) (uint16 quantity) coilBytes);
          match r with
          | Err err =>
              logPrintf (LogFailed OpWriteMultipleCoils slaveID address quantity err);;
              mret ([], SlaveDeviceFailure)
          | Ok _ =>
              logPrintf (LogSuccess OpWriteMultipleCoils slaveID address quantity);;
              let frameData := GetData frame in
              let maxLen := length frameData in
              if Z.of_nat maxLen <? quantity * 4
              then mret (slice frameData 0 maxLen, Success)
              else mret (slice frameData 0 (Z.to_nat (quantity * 4)), Success)
          end
      end
  end.

(** The first loop of [writeMultipleRegisters], [n] iterations left:
    [for i := 0; i < quantity && i*2+1 < len(data); i++]. *)
Fixpoint decodeRegisters (n i : nat) (data : list byte) (registers : list Z)
  : list Z :=
  match n with
  | O => registers
  | S n =>
      if (i * 2 + 1 <? length data)%nat then
        decodeRegisters n (S i) data
          (<[i := uint16 (Z.lor (uint16 (Z.shiftl (byte_to_Z (at_ data (i * 2))) 8))
                            (byte_to_Z (at_ data (i * 2 + 1))))]> registers)
      else registers
  end.

(** The second loop: the two bytes of each register, high byte first. *)
Definition encodeRegisters (quantity : nat) (registers : list Z) : list byte :=
  foldl (fun registerBytes '(i, value) =>
           <[(i * 2 + 1)%nat := byte_of_Z value]>
             (<[(i * 2)%nat := byte_of_Z (Z.shiftr value 8)]> registerBytes))
        (replicate (quantity * 2) x00)
        (imap (fun i value => (i, value)) registers).

Definition writeMultipleRegisters : Handler := fun frame =>
  s ← self;
  match parseWriteMultipleRequest s frame with
  | inr err =>
      logPrintf (LogParseFailed OpWriteMultipleRegisters err);;
      mret ([], IllegalDataAddress)
  | inl (slaveID, address, quantity, data) =>
      match getClient s slaveID with
      | inr err =>
          logPrintf (LogGetClientFailed err);;
          mret ([], SlaveDeviceFailure)
      | inl client =>
          let registers :=
            decodeRegisters (Z.to_nat quantity) 0 data
              (replicate (Z.to_nat quantity) 0) in
          let registerBytes := encodeRegisters (Z.to_nat quantity) registers in
          r ← clientCall client
                (WriteMultipleRegisters (uint16 address) (uint16 quantity)
                   registerBytes);
          match r with
          | Err err =>
              logPrintf
                (LogFailed OpWriteMultipleRegisters slaveID address quantity err);;
              mret ([], SlaveDeviceFailure)
          | Ok _ =>
              logPrintf
                (LogSuccess OpWriteMultipleRegisters slaveID address quantity);;
              let frameData := GetData frame in
              let maxLen := length frameData in
              if Z.of_nat maxLen <? quantity * 4
              then mret (slice frameData 0 maxLen, Success)
              else mret (slice frameData 0 (Z.to_nat (quantity * 4)), Success)
          end
      end
  end.

(** [registerHandlers]: the function code of each handler. *)
Definition registerHandlers : list (byte * Handler) :=
  [ (x01, readCoils);
    (x02, readDiscreteInputs);
    (x03, readHoldingRegisters);
    (x04, readInputRegisters);
    (x05, writeSingleCoil);
    (x06, writeSingleRegister);
    (x0f, writeMultipleCoils);
    (x10, writeMultipleRegisters) ].

(** The server's side of a request: it calls the handler registered for
    the frame's function code and answers with the PDU, the function code
    followed by the handler's data; on an exception the PDU is the
    function code with its high bit set followed by the exception code;
    a function code without handler is an [IllegalFunction]. *)
Definition handle (frame : F) : M (list byte) :=
  let function := GetFunction frame in
  r ← match (list_to_map registerHandlers : gmap byte Handler) !! function with
      | Some h => h frame
      | None => mret ([], IllegalFunction)
      end;
  match r with
  | (data, Success) => mret (function :: data)
  | (_, exception) =>
      mret [byte_of_Z (Z.lor (byte_to_Z function) 128); code exception]
  end.

End Handlers.

(** ** Observations used in the statements *)

Section Observations.

Context {F : Type} `{Framer F}.

(** The error, if any, of the decoder the handler of a function code
    runs on the frame. *)
Definition decodeError (s : Forwarder) (function : byte) (frame : F)
  : option error :=
  let failure {A} (r : A + error) : option error :=
    match r with inl _ => None | inr err => Some err end in
  match function with
  | x01 | x02 | x03 | x04 => failure (parseRequest s frame)
  | x05 | x06 => failure (parseWriteSingleRequest s frame)
  | x0f | x10 => failure (parseWriteMultipleRequest s frame)
  | _ => None
  end.

(** The frames a decoder refuses for their unit identifier. *)
Definition unitRefused (s : Forwarder) (frame : F) : Prop :=
  getSlaveID frame = x00 ∨ Servers (config s) !! getSlaveID frame = None.

(** A handler's answer to a frame it refuses without a backend call. *)
Definition refusedUncontacted (h : Handler) (frame : F) (env : Env)
    (w : World) : Prop :=
  (h frame env w).1 = ([], IllegalDataAddress)
  ∧ calls (h frame env w).2 = calls w.

End Observations.

(** The probe of the health monitor, and its outcome as [lastError] keeps
    it: [None] for a success, the error message for a failure. *)
Definition probeCall : Call := ReadHoldingRegisters 1 1.

Definition outcome (r : Result) : option string :=
  match r with
  | Ok _ => None
  | Err err => Some err
  end.

Definition probeOutcome (env : Env) (client : modbusClient) : option string :=
  outcome (backend env (SlaveId (handler client)) probeCall).

(** The log lines written between two worlds. *)
Definition emitted (before after : World) : list LogLine :=
  drop (length (logs before)) (logs after).

(** The lines of the health monitor about one slave. *)
Definition monitorLineOf (slaveID : byte) (l : LogLine) : bool :=
  match l with
  | LogConnectionException id _ | LogConnectionRestored id =>
      bool_decide (id = slaveID)
  | _ => false
  end.

(** The lines a probe writes, from the retained outcome and the new one. *)
Definition transitionLines (slaveID : byte) (previous current : option string)
  : list LogLine :=
  match previous, current with
  | None, None => []
  | None, Some err => [LogConnectionException slaveID err]
  | Some _, None => [LogConnectionRestored slaveID]
  | Some last, Some err =>
      if decide (last = err) then [] else [LogConnectionException slaveID err]
  end.

(** A client after a probe. *)
Definition probed (env : Env) (client : modbusClient) : modbusClient :=
  match probeOutcome env client with
  | Some err => set_lastError (Some err) client
  | None => set_lastConn (now env) (set_lastError None client)
  end.

Definition healthy (client : modbusClient) : bool :=
  match lastError client with
  | None => true
  | Some _ => false
  end.

(** ** A gateway with one TCP and one RTU slave *)

Module Scenario.

(** The decoded configuration file: slave 1 over TCP, slave 2 over RTU,
    every optional field absent. *)
Definition tcpServer : Server :=
  {| ConnType := "tcp"; SlaveID := 1; Addr := "10.0.0.5"; Port := 0;
     BaudRate := 0; DataBits := 0; StopBits := 0; Parity := "";
     Timeout := 0 |}.

Definition rtuServer : Server :=
  {| ConnType := "rtu"; SlaveID := 2; Addr := "/dev/ttyUSB0"; Port := 0;
     BaudRate := 0; DataBits := 0; StopBits := 0; Parity := "";
     Timeout := 0 |}.

Definition file : Config :=
  {| ListenPort := 0; Servers := {[ x01 := tcpServer; x02 := rtuServer ]} |}.

Definition fs (path : string) : FileResult :=
  if bool_decide (path = "config.yaml"%string) then Unmarshalled file
  else ReadFailed.

Definition C : Config := (loadConfig fs "config.yaml").1.

(** A backend that answers every call: the registers 0x0001, 0x00FF to a
    read of two registers, nothing to report for the writes. *)
Definition answering : Env :=
  {| backend := fun _ call =>
       match call with
       | ReadCoils _ _ | ReadDiscreteInputs _ _ => Ok [x05]
       | ReadHoldingRegisters _ 2 | ReadInputRegisters _ 2 =>
           Ok [x00; x01; x00; xff]
       | ReadHoldingRegisters _ _ | ReadInputRegisters _ _ => Ok [x00; x2a]
       | _ => Ok []
       end;
     now := 1700000000 |}.

(** Backends that fail every call with the given error. *)
Definition failing (err : string) : Env :=
  {| backend := fun _ _ => Err err; now := 1700000030 |}.

(** The forwarder after [NewForwarder] and [initClients]. *)
Definition started : World :=
  let w := {| fwd := NewForwarder C; logs := []; calls := [] |} in
  {| fwd := fwd (initClients answering w).2; logs := []; calls := [] |}.

Definition request (unit function : byte) (data : list byte) : TCPFrame :=
  {| TransactionIdentifier := 1; ProtocolIdentifier := 0; Device := unit;
     FunctionCode := function; Data := data |}.

End Scenario.

(** ** Further observations *)

(** The servers [validateServer] lets through: a slave identifier other
    than 0, the connection type "tcp" or "rtu" and an address. *)
Definition acceptable (slaveID : byte) (server : Server) : Prop :=
  slaveID ≠ x00
  ∧ (ConnType server = "tcp"%string ∨ ConnType server = "rtu"%string)
  ∧ Addr server ≠ ""%string.

(** The connection types [createClient] has a handler for. *)
Definition creatable (server : Server) : Prop :=
  ConnType server = "tcp"%string ∨ ConnType server = "TCP"%string
  ∨ ConnType server = "rtu"%string ∨ ConnType server = "RTU"%string.

(** The world a forwarder starts from. *)
Definition fresh (config : Config) : World :=
  {| fwd := NewForwarder config; logs := []; calls := [] |}.

(** The call a request of the function codes 1 to 6 stands for: the
    method of its function code on the big-endian address and on the
    big-endian quantity or value of its data. *)
Definition requestCall {F : Type} `{Framer F} (function : byte) (frame : F)
  : option Call :=
  let data := GetData frame in
  let address := 256 * byte_to_Z (at_ data 0) + byte_to_Z (at_ data 1) in
  let argument := 256 * byte_to_Z (at_ data 2) + byte_to_Z (at_ data 3) in
  match function with
  | x01 => Some (ReadCoils address argument)
  | x02 => Some (ReadDiscreteInputs address argument)
  | x03 => Some (ReadHoldingRegisters address argument)
  | x04 => Some (ReadInputRegisters address argument)
  | x05 => Some (WriteSingleCoil address argument)
  | x06 => Some (WriteSingleRegister address argument)
  | _ => None
  end.

(** The register [writeMultipleRegisters] reads at index [i] of the data,
    and the two bytes it writes for a register. *)
Definition registerAt (data : list byte) (i : nat) : Z :=
  uint16 (Z.lor (uint16 (Z.shiftl (byte_to_Z (at_ data (i * 2))) 8))
            (byte_to_Z (at_ data (i * 2 + 1)))).

Definition registerPair (value : Z) : list byte :=
  [byte_of_Z (Z.shiftr value 8); byte_of_Z value].

(** Coil [k] of the packed bytes of a request: bit [k % 8] of byte
    [k / 8], and off when the data has no such byte. *)
Definition coilAt (data : list byte) (k : nat) : bool :=
  if (k / 8 <? length data)%nat
  then Z.testbit (byte_to_Z (at_ data (k / 8))) (Z.of_nat (k mod 8))
  else false.

(** A client after [Stop]: its handler is closed. *)
Definition closeClient (client : modbusClient) : modbusClient :=
  set_handler (Close (handler client)) client.

(** Whether a tick's probe of a client succeeds. *)
Definition probeSucceeds (client : modbusClient) (env : Env) : bool :=
  match probeOutcome env client with
  | None => true
  | Some _ => false
  end.

(** ** The backend client *)

Module goburrow.

(** Modelled from the spec: the check of the backend client on a Write
    Single Coil, which is in the client library that [createClient] builds
    its clients from and not in this repository: "value:u16 (0xFF00=on,
    0x0000=off; any other value is invalid)", "any other value is rejected
    before reaching the backend".  [refuses c] is whether the client
    returns an error for the call [c] without sending a request. *)
Definition refuses (c : Call) : bool :=
  match c with
  | WriteSingleCoil _ value => negb ((value =? 65280) || (value =? 0))
  | _ => false
  end.

(** Modelled from the spec: the clients in front of the devices.  A call
    the client refuses returns the client's error and the device is not
    asked; any other call is answered by the device. *)
Definition client (device : byte → Call → Result) : byte → Call → Result :=
  fun unit c =>
    if refuses c
    then Err "modbus: state must be either 0xFF00 (ON) or 0x0000 (OFF)"
    else device unit c.

(** Modelled from the spec: among the calls made on the clients, the
    requests that reach the backends. *)
Definition sent (calls : list (byte * Call)) : list (byte * Call) :=
  List.filter (fun p => negb (refuses p.2)) calls.

End goburrow.

(** * Properties *)

(** ** Bytes *)

Lemma byte_to_Z_range (b : byte) : 0 ≤ byte_to_Z b < 256.
Proof.
  unfold byte_to_Z. pose proof (Byte.to_N_bounded b) as Hb.
  split; [apply N2Z.is_nonneg | ]. lia.
Qed.

Lemma byte_to_Z_zero (b : byte) : byte_to_Z b = 0 → b = x00.
Proof.
  unfold byte_to_Z. intros Hz.
  assert (Hn : Byte.to_N b = Byte.to_N x00) by (simpl; lia).
  apply (f_equal Byte.of_N) in Hn.
  rewrite !Byte.of_to_N in Hn. congruence.
Qed.

Lemma be16_range (hi lo : byte) : 0 ≤ be16 hi lo < 65536.
Proof.
  unfold be16.
  pose proof (byte_to_Z_range hi) as Hhi.
  pose proof (byte_to_Z_range lo) as Hlo.
  assert (Hs : 0 ≤ Z.shiftl (byte_to_Z hi) 8 < 2 ^ 16).
  { rewrite Z.shiftl_mul_pow2 by lia. change (2 ^ 8) with 256.
    change (2 ^ 16) with 65536. lia. }
  split.
  - apply Z.lor_nonneg. lia.
  - change 65536 with (2 ^ 16).
    destruct (Z.eq_dec (Z.lor (Z.shiftl (byte_to_Z hi) 8) (byte_to_Z lo)) 0)
      as [-> | Hne]; [reflexivity | ].
    apply Z.log2_lt_pow2.
    + assert (0 ≤ Z.lor (Z.shiftl (byte_to_Z hi) 8) (byte_to_Z lo))
        by (apply Z.lor_nonneg; lia). lia.
    + rewrite Z.log2_lor by lia.
      apply Z.max_lub_lt.
      * destruct (Z.eq_dec (Z.shiftl (byte_to_Z hi) 8) 0) as [-> | ?];
          [simpl; lia | apply Z.log2_lt_pow2; lia].
      * destruct (Z.eq_dec (byte_to_Z lo) 0) as [-> | ?];
          [simpl; lia | apply Z.log2_lt_pow2; [lia | ]].
        change (2 ^ 16) with 65536. lia.
Qed.

Lemma uint16_be16 (hi lo : byte) : uint16 (be16 hi lo) = be16 hi lo.
Proof. unfold uint16. apply Z.mod_small, be16_range. Qed.

(** ** The handlers *)

Ltac run_M :=
  unfold mbind, M_bind, bind, mret, M_ret, ret, self, logPrintf, clientCall,
    timeNow, storeClient.

(** Case analysis on a registered handler. *)
Ltac each_handler Hin :=
  simpl in Hin;
  repeat (destruct Hin as [Hin | Hin]; [inversion Hin; subst; clear Hin | ]);
  [ .. | contradiction ].

Section HandlerFacts.

Context {F : Type} `{Framer F}.

Lemma getSlaveID_lookup (frame : F) (id : byte) :
  Bytes frame !! 6%nat = Some id → getSlaveID frame = id.
Proof.
  intros Hid. unfold getSlaveID, at_.
  pose proof (lookup_lt_Some _ _ _ Hid) as Hlen.
  destruct (Nat.ltb_spec (length (Bytes frame)) 7) as [Hlt | _]; [lia | ].
  apply nth_lookup_Some with (d := x00) in Hid. exact Hid.
Qed.

Lemma getSlaveID_short (frame : F) :
  (length (Bytes frame) < 7)%nat → getSlaveID frame = x00.
Proof.
  intros Hlen. unfold getSlaveID.
  destruct (Nat.ltb_spec (length (Bytes frame)) 7); [reflexivity | lia].
Qed.

(** The three decoders fail on a unit identifier that is 0 or is not a
    key of the configured servers. *)
Lemma parseRequest_unit (s : Forwarder) (frame : F) :
  getSlaveID frame = x00 ∨ Servers (config s) !! getSlaveID frame = None →
  ∃ err, parseRequest s frame = inr err.
Proof.
  intros Hunit. unfold parseRequest.
  destruct (length (GetData frame) <? 4)%nat; [eauto | ].
  case_bool_decide as Hz; [eauto | ].
  destruct Hunit as [Hunit | Hunit]; [contradiction | ].
  rewrite Hunit. eauto.
Qed.

Lemma parseWriteSingleRequest_unit (s : Forwarder) (frame : F) :
  getSlaveID frame = x00 ∨ Servers (config s) !! getSlaveID frame = None →
  ∃ err, parseWriteSingleRequest s frame = inr err.
Proof.
  intros Hunit. unfold parseWriteSingleRequest.
  destruct (length (GetData frame) <? 4)%nat; [eauto | ].
  case_bool_decide as Hz; [eauto | ].
  destruct Hunit as [Hunit | Hunit]; [contradiction | ].
  rewrite Hunit. eauto.
Qed.

Lemma parseWriteMultipleRequest_unit (s : Forwarder) (frame : F) :
  getSlaveID frame = x00 ∨ Servers (config s) !! getSlaveID frame = None →
  ∃ err, parseWriteMultipleRequest s frame = inr err.
Proof.
  intros Hunit. unfold parseWriteMultipleRequest.
  destruct (length (GetData frame) <? 6)%nat; [eauto | ].
  case_bool_decide as Hz; [eauto | ].
  destruct Hunit as [Hunit | Hunit]; [contradiction | ].
  rewrite Hunit. eauto.
Qed.

Lemma decodeError_unit (s : Forwarder) (frame : F) (function : byte)
    (h : Handler) :
  getSlaveID frame = x00 ∨ Servers (config s) !! getSlaveID frame = None →
  In (function, h) registerHandlers →
  ∃ err, decodeError s function frame = Some err.
Proof.
  intros Hunit Hin.
  destruct (parseRequest_unit s frame Hunit) as [e1 H1].
  destruct (parseWriteSingleRequest_unit s frame Hunit) as [e2 H2].
  destruct (parseWriteMultipleRequest_unit s frame Hunit) as [e3 H3].
  each_handler Hin; unfold decodeError; rewrite ?H1, ?H2, ?H3; eauto.
Qed.

(** A handler whose decoder fails answers [IllegalDataAddress] and calls
    no backend. *)
Lemma readHandler_refuses op method response (frame : F) env w err :
  parseRequest (fwd w) frame = inr err →
  refusedUncontacted (readHandler op method response) frame env w.
Proof.
  intros Hparse. unfold refusedUncontacted, readHandler. run_M.
  rewrite Hparse. split; reflexivity.
Qed.

Lemma decode_failure_refused (frame : F) env w function h err :
  In (function, h) registerHandlers →
  decodeError (fwd w) function frame = Some err →
  refusedUncontacted h frame env w.
Proof.
  intros Hin Hdec. each_handler Hin; unfold decodeError in Hdec.
  - destruct (parseRequest (fwd w) frame) eqn:Hp; [discriminate | ].
    eapply readHandler_refuses; eauto.
  - destruct (parseRequest (fwd w) frame) eqn:Hp; [discriminate | ].
    eapply readHandler_refuses; eauto.
  - destruct (parseRequest (fwd w) frame) eqn:Hp; [discriminate | ].
    eapply readHandler_refuses; eauto.
  - destruct (parseRequest (fwd w) frame) eqn:Hp; [discriminate | ].
    eapply readHandler_refuses; eauto.
  - destruct (parseWriteSingleRequest (fwd w) frame) eqn:Hp; [discriminate | ].
    unfold refusedUncontacted, writeSingleCoil. run_M. rewrite Hp. by split.
  - destruct (parseWriteSingleRequest (fwd w) frame) eqn:Hp; [discriminate | ].
    unfold refusedUncontacted, writeSingleRegister. run_M. rewrite Hp. by split.
  - destruct (parseWriteMultipleRequest (fwd w) frame) eqn:Hp; [discriminate | ].
    unfold refusedUncontacted, writeMultipleCoils. run_M. rewrite Hp. by split.
  - destruct (parseWriteMultipleRequest (fwd w) frame) eqn:Hp; [discriminate | ].
    unfold refusedUncontacted, writeMultipleRegisters. run_M. rewrite Hp.
    by split.
Qed.

(** No handler writes to the forwarder: the configuration and every
    client (its [lastError], [lastConn] and handler) are as before. *)
Lemma readHandler_keeps_forwarder op method response (frame : F) env w :
  fwd (readHandler op method response frame env w).2 = fwd w.
Proof.
  unfold readHandler. run_M.
  destruct (parseRequest (fwd w) frame) as [[[slaveID address] quantity] | err];
    [ | reflexivity].
  destruct (getClient (fwd w) slaveID) as [client | err]; [ | reflexivity].
  simpl. destruct (backend env _ _); reflexivity.
Qed.

Lemma handler_keeps_forwarder (frame : F) env w function h :
  In (function, h) registerHandlers →
  fwd (h frame env w).2 = fwd w.
Proof.
  intros Hin. each_handler Hin;
    try apply readHandler_keeps_forwarder.
  - unfold writeSingleCoil. run_M.
    destruct (parseWriteSingleRequest (fwd w) frame)
      as [[[slaveID address] value] | err]; [ | reflexivity].
    destruct (getClient (fwd w) slaveID) as [client | err]; [ | reflexivity].
    simpl. destruct (backend env _ _); reflexivity.
  - unfold writeSingleRegister. run_M.
    destruct (parseWriteSingleRequest (fwd w) frame)
      as [[[slaveID address] value] | err]; [ | reflexivity].
    destruct (getClient (fwd w) slaveID) as [client | err]; [ | reflexivity].
    simpl. destruct (backend env _ _); reflexivity.
  - unfold writeMultipleCoils. run_M.
    destruct (parseWriteMultipleRequest (fwd w) frame)
      as [[[[slaveID address] quantity] data] | err]; [ | reflexivity].
    destruct (getClient (fwd w) slaveID) as [client | err]; [ | reflexivity].
    simpl. destruct (backend env _ _); [ | reflexivity].
    destruct (_ <? _); reflexivity.
  - unfold writeMultipleRegisters. run_M.
    destruct (parseWriteMultipleRequest (fwd w) frame)
      as [[[[slaveID address] quantity] data] | err]; [ | reflexivity].
    destruct (getClient (fwd w) slaveID) as [client | err]; [ | reflexivity].
    simpl. destruct (backend env _ _); [ | reflexivity].
    destruct (_ <? _); reflexivity.
Qed.

End HandlerFacts.

(** ** Configuration *)

Lemma validateConfig_Servers (C : Config) :
  Servers (validateConfig C).1 = Servers C.
Proof.
  unfold validateConfig.
  destruct (ListenPort C <=? 0); simpl; destruct (_ =? _)%nat; reflexivity.
Qed.

Lemma validateServers_accepts (entries : list (byte * Server)) :
  validateServers entries = None →
  ∀ slaveID server,
    In (slaveID, server) entries → (validateServer slaveID server).2 = None.
Proof.
  induction entries as [ | [id srv] rest IH]; simpl; intros Hok slaveID server Hin.
  - contradiction.
  - destruct (validateServer id srv) as [copy [err | ]] eqn:Hv; [discriminate | ].
    destruct Hin as [Heq | Hin].
    + inversion Heq; subst. rewrite Hv. reflexivity.
    + apply IH; assumption.
Qed.

Lemma validateServer_zero (server : Server) :
  (validateServer x00 server).2 = Some (ErrInvalidSlaveID x00).
Proof. reflexivity. Qed.

(** A configuration that passes [validateConfig] has no slave 0. *)
Lemma validateConfig_no_zero (C C' : Config) :
  validateConfig C = (C', None) → Servers C' !! x00 = None.
Proof.
  intros Hv.
  assert (HS : Servers C' = Servers C).
  { rewrite <- (validateConfig_Servers C), Hv. reflexivity. }
  rewrite HS.
  destruct (Servers C !! x00) as [server | ] eqn:Hzero; [ | reflexivity].
  exfalso.
  assert (Hok : validateServers (map_to_list (Servers C)) = None).
  { unfold validateConfig in Hv.
    destruct (ListenPort C <=? 0); simpl in Hv;
      destruct (_ =? _)%nat; inversion Hv; reflexivity. }
  apply elem_of_map_to_list, list_elem_of_In in Hzero.
  pose proof (validateServers_accepts _ Hok _ _ Hzero) as Hacc.
  rewrite validateServer_zero in Hacc. discriminate.
Qed.

(** ** Requests the gateway refuses *)

(** C4: a request whose unit identifier (byte 6 of the frame) is not a key
    of the configured servers is answered [IllegalDataAddress] by each of
    the eight handlers, and no backend client is called. *)
Theorem unknown_slave_refused {F : Type} `{Framer F} (frame : F) (env : Env)
    (w : World) (id function : byte) (h : Handler) :
  Bytes frame !! 6%nat = Some id →
  Servers (config (fwd w)) !! id = None →
  In (function, h) registerHandlers →
  (h frame env w).1 = ([], IllegalDataAddress)
  ∧ calls (h frame env w).2 = calls w.
Proof.
  intros Hid Hnone Hin.
  apply getSlaveID_lookup in Hid.
  destruct (decodeError_unit (fwd w) frame function h) as [err Herr];
    [right; rewrite Hid; exact Hnone | exact Hin | ].
  exact (decode_failure_refused frame env w function h err Hin Herr).
Qed.

Lemma unknown_slave_refused_witness :
  let frame := Scenario.request x09 x03 [x00; x00; x00; x02] in
  Bytes frame !! 6%nat = Some x09
  ∧ Servers (config (fwd Scenario.started)) !! x09 = None
  ∧ (readHoldingRegisters frame Scenario.answering Scenario.started).1
    = ([], IllegalDataAddress)
  ∧ calls (readHoldingRegisters frame Scenario.answering Scenario.started).2
    = calls Scenario.started.
Proof.
  intros frame.
  assert (Hid : Bytes frame !! 6%nat = Some x09) by reflexivity.
  assert (Hnone : Servers (config (fwd Scenario.started)) !! x09 = None)
    by (vm_compute; reflexivity).
  split; [exact Hid | split; [exact Hnone | ]].
  apply (unknown_slave_refused frame Scenario.answering Scenario.started
           x09 x03 readHoldingRegisters Hid Hnone).
  simpl. auto.
Defined.

(** C10: a request whose frame has fewer than 7 bytes, or whose unit
    identifier (byte 6) is 0, is answered [IllegalDataAddress] by each of
    the eight handlers without a call to a backend client; and 0 is never
    a key of a configuration that passed validation. *)
Theorem missing_or_zero_unit_refused {F : Type} `{Framer F} (frame : F)
    (env : Env) (w : World) (function : byte) (h : Handler) :
  (length (Bytes frame) < 7)%nat ∨ Bytes frame !! 6%nat = Some x00 →
  In (function, h) registerHandlers →
  ((h frame env w).1 = ([], IllegalDataAddress)
   ∧ calls (h frame env w).2 = calls w)
  ∧ (∀ C C', validateConfig C = (C', None) → Servers C' !! x00 = None).
Proof.
  intros Hunit Hin. split; [ | exact validateConfig_no_zero].
  assert (Hzero : getSlaveID frame = x00).
  { destruct Hunit as [Hshort | Hid];
      [apply getSlaveID_short | apply getSlaveID_lookup]; assumption. }
  destruct (decodeError_unit (fwd w) frame function h) as [err Herr];
    [left; exact Hzero | exact Hin | ].
  exact (decode_failure_refused frame env w function h err Hin Herr).
Qed.

Lemma missing_or_zero_unit_refused_witness :
  let short := {| rawBytes := [x00; x01; x00; x00; x00; x06];
                  rawFunction := x05;
                  rawData := [x00; x00; xff; x00] |} in
  let zero := Scenario.request x00 x10 [x00; x00; x00; x01; x02; x00; x07] in
  ((length (Bytes short) < 7)%nat
   ∧ (writeSingleCoil short Scenario.answering Scenario.started).1
     = ([], IllegalDataAddress)
   ∧ calls (writeSingleCoil short Scenario.answering Scenario.started).2
     = calls Scenario.started)
  ∧ (Bytes zero !! 6%nat = Some x00
     ∧ (writeMultipleRegisters zero Scenario.answering Scenario.started).1
       = ([], IllegalDataAddress)
     ∧ calls (writeMultipleRegisters zero Scenario.answering Scenario.started).2
       = calls Scenario.started).
Proof.
  intros short zero. split.
  - assert (Hshort : (length (Bytes short) < 7)%nat) by (simpl; lia).
    split; [exact Hshort | ].
    apply (missing_or_zero_unit_refused short Scenario.answering
             Scenario.started x05 writeSingleCoil (or_introl Hshort)).
    simpl. auto 10.
  - assert (Hzero : Bytes zero !! 6%nat = Some x00) by reflexivity.
    split; [exact Hzero | ].
    apply (missing_or_zero_unit_refused zero Scenario.answering
             Scenario.started x10 writeMultipleRegisters (or_intror Hzero)).
    simpl. auto 10.
Defined.

(** ** Decoding *)

Section Decoding.

Context {F : Type} `{Framer F}.

Lemma parseRequest_fails_iff (s : Forwarder) (frame : F) :
  (∃ err, parseRequest s frame = inr err)
  ↔ (length (GetData frame) < 4)%nat ∨ unitRefused s frame.
Proof.
  split.
  - intros [err Herr]. unfold parseRequest in Herr.
    destruct (Nat.ltb_spec (length (GetData frame)) 4); [tauto | ].
    right. unfold unitRefused.
    case_bool_decide; [tauto | ].
    destruct (Servers (config s) !! getSlaveID frame); [discriminate | tauto].
  - intros [Hlen | Hunit].
    + unfold parseRequest.
      destruct (Nat.ltb_spec (length (GetData frame)) 4); [eauto | lia].
    + apply parseRequest_unit, Hunit.
Qed.

Lemma parseWriteSingleRequest_fails_iff (s : Forwarder) (frame : F) :
  (∃ err, parseWriteSingleRequest s frame = inr err)
  ↔ (length (GetData frame) < 4)%nat ∨ unitRefused s frame.
Proof.
  split.
  - intros [err Herr]. unfold parseWriteSingleRequest in Herr.
    destruct (Nat.ltb_spec (length (GetData frame)) 4); [tauto | ].
    right. unfold unitRefused.
    case_bool_decide; [tauto | ].
    destruct (Servers (config s) !! getSlaveID frame); [discriminate | tauto].
  - intros [Hlen | Hunit].
    + unfold parseWriteSingleRequest.
      destruct (Nat.ltb_spec (length (GetData frame)) 4); [eauto | lia].
    + apply parseWriteSingleRequest_unit, Hunit.
Qed.

Lemma parseWriteMultipleRequest_fails_iff (s : Forwarder) (frame : F) :
  (∃ err, parseWriteMultipleRequest s frame = inr err)
  ↔ (length (GetData frame) < 6)%nat
    ∨ unitRefused s frame
    ∨ Z.of_nat (length (GetData frame)) < 5 + byte_to_Z (at_ (GetData frame) 4).
Proof.
  split.
  - intros [err Herr]. unfold parseWriteMultipleRequest in Herr.
    destruct (Nat.ltb_spec (length (GetData frame)) 6); [tauto | ].
    right. unfold unitRefused.
    case_bool_decide; [tauto | ].
    destruct (Servers (config s) !! getSlaveID frame); [ | tauto].
    destruct (Z.ltb_spec (Z.of_nat (length (GetData frame)))
                (5 + byte_to_Z (at_ (GetData frame) 4)));
      [tauto | discriminate].
  - intros [Hlen | [Hunit | Hcount]].
    + unfold parseWriteMultipleRequest.
      destruct (Nat.ltb_spec (length (GetData frame)) 6); [eauto | lia].
    + apply parseWriteMultipleRequest_unit, Hunit.
    + unfold parseWriteMultipleRequest.
      destruct (length (GetData frame) <? 6)%nat; [eauto | ].
      case_bool_decide; [eauto | ].
      destruct (Servers (config s) !! getSlaveID frame); [ | eauto].
      destruct (Z.ltb_spec (Z.of_nat (length (GetData frame)))
                  (5 + byte_to_Z (at_ (GetData frame) 4))); [eauto | lia].
Qed.

(** What a decoder returns are 16-bit values, so the [uint16] conversions
    of the handlers change nothing. *)
Lemma parseWriteSingleRequest_range (s : Forwarder) (frame : F) slaveID
    address value :
  parseWriteSingleRequest s frame = inl (slaveID, address, value) →
  uint16 address = address ∧ uint16 value = value.
Proof.
  unfold parseWriteSingleRequest. intros Hparse.
  destruct (length (GetData frame) <? 4)%nat; [discriminate | ].
  case_bool_decide; [discriminate | ].
  destruct (Servers (config s) !! getSlaveID frame); [ | discriminate].
  inversion Hparse; subst. split; apply uint16_be16.
Qed.

Lemma parseWriteMultipleRequest_range (s : Forwarder) (frame : F) slaveID
    address quantity data :
  parseWriteMultipleRequest s frame = inl (slaveID, address, quantity, data) →
  0 ≤ quantity < 65536.
Proof.
  unfold parseWriteMultipleRequest. intros Hparse.
  destruct (length (GetData frame) <? 6)%nat; [discriminate | ].
  case_bool_decide; [discriminate | ].
  destruct (Servers (config s) !! getSlaveID frame); [ | discriminate].
  destruct (_ <? _); [discriminate | ].
  inversion Hparse; subst. apply be16_range.
Qed.

(** C5, amended: decoding fails exactly when the PDU data is shorter
    than 4 bytes (codes 1 to 6), or shorter than 6 bytes or than
    5+byteCount bytes (codes 15 and 16), or when the frame's unit
    identifier is missing, 0 or not a configured slave; a failed decoding
    is answered [IllegalDataAddress] without a backend call. *)
Theorem decoding_fails_exactly (s : Forwarder) (frame : F) :
  ((∃ err, parseRequest s frame = inr err)
   ↔ (length (GetData frame) < 4)%nat ∨ unitRefused s frame)
  ∧ ((∃ err, parseWriteSingleRequest s frame = inr err)
     ↔ (length (GetData frame) < 4)%nat ∨ unitRefused s frame)
  ∧ ((∃ err, parseWriteMultipleRequest s frame = inr err)
     ↔ (length (GetData frame) < 6)%nat
       ∨ unitRefused s frame
       ∨ Z.of_nat (length (GetData frame))
         < 5 + byte_to_Z (at_ (GetData frame) 4))
  ∧ (∀ env w function h err,
       fwd w = s →
       In (function, h) registerHandlers →
       decodeError s function frame = Some err →
       (h frame env w).1 = ([], IllegalDataAddress)
       ∧ calls (h frame env w).2 = calls w).
Proof.
  split; [apply parseRequest_fails_iff | ].
  split; [apply parseWriteSingleRequest_fails_iff | ].
  split; [apply parseWriteMultipleRequest_fails_iff | ].
  intros env w function h err <- Hin Hdec.
  exact (decode_failure_refused frame env w function h err Hin Hdec).
Qed.

End Decoding.

(** C5 as stated fails: a Write Multiple Registers PDU of 5 data bytes with
    byteCount 0, from the configured slave 1, has its 5+byteCount bytes and
    is refused. *)
Lemma five_byte_write_multiple_refused :
  let frame := Scenario.request x01 x10 [x00; x00; x00; x00; x00] in
  ¬ ((∃ err, parseWriteMultipleRequest (fwd Scenario.started) frame = inr err)
     ↔ Z.of_nat (length (GetData frame))
       < 5 + byte_to_Z (at_ (GetData frame) 4)).
Proof.
  intros frame [Hfails _].
  assert (Hlt : Z.of_nat (length (GetData frame))
                < 5 + byte_to_Z (at_ (GetData frame) 4)).
  { apply Hfails. exists ErrInsufficientData. reflexivity. }
  vm_compute in Hlt. discriminate.
Qed.

Lemma decoding_fails_exactly_witness :
  let frame := Scenario.request x01 x0f [x00; x00; x00; x08; x02; xff] in
  (∃ err, parseWriteMultipleRequest (fwd Scenario.started) frame = inr err)
  ∧ (writeMultipleCoils frame Scenario.answering Scenario.started).1
    = ([], IllegalDataAddress)
  ∧ calls (writeMultipleCoils frame Scenario.answering Scenario.started).2
    = calls Scenario.started.
Proof.
  intros frame.
  destruct (decoding_fails_exactly (fwd Scenario.started) frame)
    as (_ & _ & Hmultiple & Hrefused).
  split.
  - apply Hmultiple. right. right. vm_compute. reflexivity.
  - apply (Hrefused Scenario.answering Scenario.started x0f writeMultipleCoils
             ErrInsufficientByteCount eq_refl).
    + simpl. auto 10.
    + reflexivity.
Defined.

(** ** Write Single Coil *)

(** What the handler does with a request that decodes for a slave with a
    client: one call of the client's [WriteSingleCoil] with the address and
    the value of the request, and a log line with the logical value. *)
Lemma writeSingleCoil_forwards_value {F : Type} `{Framer F} (frame : F)
    (env : Env) (w : World) (slaveID : byte) (address value : Z)
    (client : modbusClient) :
  parseWriteSingleRequest (fwd w) frame = inl (slaveID, address, value) →
  getClient (fwd w) slaveID = inl client →
  let call := WriteSingleCoil address value in
  let coilValue := bool_decide (value = 65280) in
  let r := writeSingleCoil frame env w in
  calls r.2 = calls w ++ [(SlaveId (handler client), call)]
  ∧ match backend env (SlaveId (handler client)) call with
    | Ok _ =>
        r.1 = (slice (GetData frame) 0 4, Success)
        ∧ logs r.2 = logs w ++ [LogWriteSingleCoilSuccess slaveID address coilValue]
    | Err err =>
        r.1 = ([], SlaveDeviceFailure)
        ∧ logs r.2
          = logs w ++ [LogWriteSingleCoilFailed slaveID address coilValue err]
    end.
Proof.
  intros Hparse Hclient call coilValue r.
  assert (Hcoil : (value =? 65280) = coilValue).
  { unfold coilValue. destruct (Z.eqb_spec value 65280) as [-> | Hne].
    - reflexivity.
    - symmetry. apply bool_decide_eq_false. exact Hne. }
  destruct (parseWriteSingleRequest_range _ _ _ _ _ Hparse) as [Ha Hv].
  subst r. unfold writeSingleCoil. run_M.
  rewrite Hparse, Hclient. simpl. rewrite Ha, Hv. fold call.
  destruct (backend env (SlaveId (handler client)) call); simpl;
    rewrite Hcoil; repeat split; reflexivity.
Qed.

Lemma parseWriteSingleRequest_value {F : Type} `{Framer F} (s : Forwarder)
    (frame : F) slaveID address value :
  parseWriteSingleRequest s frame = inl (slaveID, address, value) →
  value = be16 (at_ (GetData frame) 2) (at_ (GetData frame) 3).
Proof.
  unfold parseWriteSingleRequest. intros Hparse.
  destruct (length (GetData frame) <? 4)%nat; [discriminate | ].
  case_bool_decide; [discriminate | ].
  destruct (Servers (config s) !! getSlaveID frame); [ | discriminate].
  inversion Hparse. reflexivity.
Qed.

Lemma sent_snoc (calls : list (byte * Call)) (unit : byte) (c : Call) :
  goburrow.sent (calls ++ [(unit, c)])
  = goburrow.sent calls ++ (if goburrow.refuses c then [] else [(unit, c)]).
Proof.
  unfold goburrow.sent. rewrite List.filter_app. f_equal.
  cbn [List.filter snd]. destruct (goburrow.refuses c); reflexivity.
Qed.

(** C3: with the backend client in front of the devices, a Write Single
    Coil request whose value field is neither 0xFF00 nor 0x0000 is answered
    with an exception and empty data, and no request reaches a backend; a
    request with the value 0xFF00 that decodes for a slave with a client is
    sent to that slave's backend and reported as logical [true], one with
    the value 0x0000 is sent and reported as logical [false]. *)
Theorem writeSingleCoil_checks_value {F : Type} `{Framer F} (frame : F)
    (device : byte → Call → Result) (t : Z) (w : World) :
  let env := {| backend := goburrow.client device; now := t |} in
  let value := be16 (at_ (GetData frame) 2) (at_ (GetData frame) 3) in
  let r := writeSingleCoil frame env w in
  (value ≠ 65280 → value ≠ 0 →
   r.1.2 ≠ Success ∧ r.1.1 = []
   ∧ goburrow.sent (calls r.2) = goburrow.sent (calls w))
  ∧ (∀ slaveID address client (coilValue : bool),
       parseWriteSingleRequest (fwd w) frame = inl (slaveID, address, value) →
       getClient (fwd w) slaveID = inl client →
       (value = 65280 ∧ coilValue = true) ∨ (value = 0 ∧ coilValue = false) →
       goburrow.sent (calls r.2)
       = goburrow.sent (calls w)
         ++ [(SlaveId (handler client), WriteSingleCoil address value)]
       ∧ match device (SlaveId (handler client))
                 (WriteSingleCoil address value) with
         | Ok _ =>
             r.1 = (slice (GetData frame) 0 4, Success)
             ∧ logs r.2
               = logs w ++ [LogWriteSingleCoilSuccess slaveID address coilValue]
         | Err err =>
             r.1 = ([], SlaveDeviceFailure)
             ∧ logs r.2
               = logs w
                 ++ [LogWriteSingleCoilFailed slaveID address coilValue err]
         end).
Proof.
  intros env value r. split.
  - intros Hon Hoff.
    destruct (parseWriteSingleRequest (fwd w) frame)
      as [[[slaveID address] v] | err] eqn:Hparse.
    + pose proof (parseWriteSingleRequest_value _ _ _ _ _ Hparse) as Hv.
      fold value in Hv. subst v.
      destruct (getClient (fwd w) slaveID) as [client | err] eqn:Hclient.
      * pose proof (writeSingleCoil_forwards_value frame env w slaveID address
                      value client Hparse Hclient) as [Hcalls Hanswer].
        fold r in Hcalls, Hanswer.
        assert (Hrefused : goburrow.refuses (WriteSingleCoil address value)
                           = true).
        { simpl. destruct (Z.eqb_spec value 65280); [contradiction | ].
          destruct (Z.eqb_spec value 0); [contradiction | reflexivity]. }
        simpl in Hanswer. unfold goburrow.client in Hanswer.
        rewrite Hrefused in Hanswer. destruct Hanswer as [Hr _].
        rewrite Hr, Hcalls, sent_snoc, Hrefused, app_nil_r.
        repeat split. discriminate.
      * subst r. unfold writeSingleCoil. run_M.
        rewrite Hparse, Hclient. simpl. repeat split. discriminate.
    + subst r. unfold writeSingleCoil. run_M. rewrite Hparse. simpl.
      repeat split. discriminate.
  - intros slaveID address client coilValue Hparse Hclient Hvalue.
    pose proof (writeSingleCoil_forwards_value frame env w slaveID address
                  value client Hparse Hclient) as [Hcalls Hanswer].
    fold r in Hcalls, Hanswer.
    assert (Haccepted : goburrow.refuses (WriteSingleCoil address value)
                        = false
                        ∧ bool_decide (value = 65280) = coilValue).
    { destruct Hvalue as [[Hv ->] | [Hv ->]]; rewrite Hv; split; reflexivity. }
    destruct Haccepted as [Haccepted Hcoil].
    simpl in Hanswer. unfold goburrow.client in Hanswer.
    rewrite Haccepted, Hcoil in Hanswer.
    split; [ | exact Hanswer].
    rewrite Hcalls, sent_snoc, Haccepted. reflexivity.
Qed.

Lemma writeSingleCoil_checks_value_witness :
  let device : byte → Call → Result := fun _ _ => Ok [] in
  let env := {| backend := goburrow.client device; now := 1700000000 |} in
  let invalid := Scenario.request x01 x05 [x00; x07; x12; x34] in
  let on := Scenario.request x01 x05 [x00; x07; xff; x00] in
  let off := Scenario.request x01 x05 [x00; x07; x00; x00] in
  ((writeSingleCoil invalid env Scenario.started).1
   = ([], SlaveDeviceFailure)
   ∧ goburrow.sent (calls (writeSingleCoil invalid env Scenario.started).2)
     = [])
  ∧ (goburrow.sent (calls (writeSingleCoil on env Scenario.started).2)
     = [(x01, WriteSingleCoil 7 65280)]
     ∧ logs (writeSingleCoil on env Scenario.started).2
       = [LogWriteSingleCoilSuccess x01 7 true])
  ∧ (goburrow.sent (calls (writeSingleCoil off env Scenario.started).2)
     = [(x01, WriteSingleCoil 7 0)]
     ∧ logs (writeSingleCoil off env Scenario.started).2
       = [LogWriteSingleCoilSuccess x01 7 false]).
Proof.
  intros device env invalid on off.
  destruct (clients (fwd Scenario.started) !! x01) as [client | ] eqn:Hc;
    [ | vm_compute in Hc; discriminate].
  assert (Hclient : getClient (fwd Scenario.started) x01 = inl client)
    by (unfold getClient; rewrite Hc; reflexivity).
  assert (Hunit : SlaveId (handler client) = x01)
    by (vm_compute in Hc; inversion Hc; reflexivity).
  split; [ | split].
  - destruct (writeSingleCoil_checks_value invalid device 1700000000
                Scenario.started) as [Hrefused _].
    destruct Hrefused as (_ & _ & Hsent); [discriminate | discriminate | ].
    split; [reflexivity | exact Hsent].
  - destruct (writeSingleCoil_checks_value on device 1700000000
                Scenario.started) as [_ Hforwarded].
    destruct (Hforwarded x01 7 client true eq_refl Hclient
                (or_introl (conj eq_refl eq_refl))) as [Hsent Hanswer].
    rewrite Hunit in Hsent, Hanswer. simpl in Hanswer.
    destruct Hanswer as [_ Hlog]. split; [exact Hsent | exact Hlog].
  - destruct (writeSingleCoil_checks_value off device 1700000000
                Scenario.started) as [_ Hforwarded].
    destruct (Hforwarded x01 7 client false eq_refl Hclient
                (or_intror (conj eq_refl eq_refl))) as [Hsent Hanswer].
    rewrite Hunit in Hsent, Hanswer. simpl in Hanswer.
    destruct Hanswer as [_ Hlog]. split; [exact Hsent | exact Hlog].
Defined.

(** ** The register reads *)

(** A successful register read answers [byte(2 * len(results))] followed
    by [results], the bytes the backend client returned. *)
Lemma readHandler_success {F : Type} `{Framer F} op method response
    (frame : F) env w slaveID address quantity client results :
  parseRequest (fwd w) frame = inl (slaveID, address, quantity) →
  getClient (fwd w) slaveID = inl client →
  backend env (SlaveId (handler client))
    (method (uint16 address) (uint16 quantity)) = Ok results →
  (readHandler op method response frame env w).1 = (response results, Success).
Proof.
  intros Hparse Hclient Hok. unfold readHandler. run_M.
  rewrite Hparse, Hclient. simpl. rewrite Hok. reflexivity.
Qed.

(** The client returns two bytes per register, so for [q] registers the
    count byte is [byte(4 * q)]. *)
Lemma registersResponse_count (q : Z) (results : list byte) :
  Z.of_nat (length results) = 2 * q →
  registersResponse results = byte_of_Z (4 * q) :: results.
Proof.
  intros Hlen. unfold registersResponse. rewrite Hlen. f_equal. f_equal. lia.
Qed.

(** C1 (the code departs from it): Read Holding Registers and Read Input
    Registers of 2 registers from slave 1, whose backend returns the
    registers 0x0001, 0x00FF: the response PDU carries the four register
    bytes behind a count byte of 8, not 4. *)
Theorem read_registers_count_doubled :
  let holding := Scenario.request x01 x03 [x00; x00; x00; x02] in
  let input := Scenario.request x01 x04 [x00; x00; x00; x02] in
  (readHoldingRegisters holding Scenario.answering Scenario.started).1
  = ([x08; x00; x01; x00; xff], Success)
  ∧ (readInputRegisters input Scenario.answering Scenario.started).1
    = ([x08; x00; x01; x00; xff], Success)
  ∧ (handle holding Scenario.answering Scenario.started).1
    = [x03; x08; x00; x01; x00; xff]
  ∧ (handle input Scenario.answering Scenario.started).1
    = [x04; x08; x00; x01; x00; xff]
  ∧ calls (handle holding Scenario.answering Scenario.started).2
    = [(x01, ReadHoldingRegisters 0 2)]
  ∧ calls (handle input Scenario.answering Scenario.started).2
    = [(x01, ReadInputRegisters 0 2)].
Proof. vm_compute. repeat split; reflexivity. Qed.

(** ** The multiple writes *)

(** The data a successful multiple write answers with: the first
    [quantity * 4] bytes of the request data, or all of it when it is
    shorter. *)
Lemma writeMultipleRegisters_success {F : Type} `{Framer F} (frame : F) env w
    slaveID address quantity data client results :
  parseWriteMultipleRequest (fwd w) frame
  = inl (slaveID, address, quantity, data) →
  getClient (fwd w) slaveID = inl client →
  backend env (SlaveId (handler client))
    (WriteMultipleRegisters (uint16 address) (uint16 quantity)
       (encodeRegisters (Z.to_nat quantity)
          (decodeRegisters (Z.to_nat quantity) 0 data
             (replicate (Z.to_nat quantity) 0)))) = Ok results →
  (writeMultipleRegisters frame env w).1
  = (take (Z.to_nat (quantity * 4)) (GetData frame), Success).
Proof.
  intros Hparse Hclient Hok.
  pose proof (parseWriteMultipleRequest_range _ _ _ _ _ _ Hparse) as Hq.
  unfold writeMultipleRegisters. run_M.
  rewrite Hparse, Hclient. simpl. rewrite Hok. simpl.
  unfold slice. rewrite !Nat.sub_0_r, !drop_0.
  destruct (Z.ltb_spec (Z.of_nat (length (GetData frame))) (quantity * 4));
    simpl; [ | reflexivity].
  rewrite !take_ge by lia. reflexivity.
Qed.

Lemma writeMultipleCoils_success {F : Type} `{Framer F} (frame : F) env w
    slaveID address quantity data client results :
  parseWriteMultipleRequest (fwd w) frame
  = inl (slaveID, address, quantity, data) →
  getClient (fwd w) slaveID = inl client →
  backend env (SlaveId (handler client))
    (WriteMultipleCoils (uint16 address) (uint16 quantity)
       (packCoils (Z.to_nat quantity)
          (unpackCoils (Z.to_nat quantity) data))) = Ok results →
  (writeMultipleCoils frame env w).1
  = (take (Z.to_nat (quantity * 4)) (GetData frame), Success).
Proof.
  intros Hparse Hclient Hok.
  pose proof (parseWriteMultipleRequest_range _ _ _ _ _ _ Hparse) as Hq.
  unfold writeMultipleCoils. run_M.
  rewrite Hparse, Hclient. simpl. rewrite Hok. simpl.
  unfold slice. rewrite !Nat.sub_0_r, !drop_0.
  destruct (Z.ltb_spec (Z.of_nat (length (GetData frame))) (quantity * 4));
    simpl; [ | reflexivity].
  rewrite !take_ge by lia. reflexivity.
Qed.

(** C2 (the code departs from it): a successful Write Multiple Coils of 7
    coils answers with the 6 bytes of the request data, and a successful
    Write Multiple Registers of 123 registers with all its 251 bytes; only
    for quantity 1 is the answer the 4 bytes of address and quantity. *)
Theorem write_multiple_echo_not_fixed :
  let coils7 := Scenario.request x01 x0f [x00; x10; x00; x07; x01; x55] in
  let registers123 :=
    Scenario.request x01 x10
      ([x00; x10; x00; x7b; xf6] ++ replicate 246 x00) in
  let registers1 :=
    Scenario.request x01 x10 [x00; x10; x00; x01; x02; x00; x2a] in
  (writeMultipleCoils coils7 Scenario.answering Scenario.started).1
  = ([x00; x10; x00; x07; x01; x55], Success)
  ∧ (let r := writeMultipleRegisters registers123 Scenario.answering
                Scenario.started in
     r.1.2 = Success ∧ length r.1.1 = 251%nat)
  ∧ (writeMultipleRegisters registers1 Scenario.answering Scenario.started).1
    = ([x00; x10; x00; x01], Success).
Proof. vm_compute. repeat split; reflexivity. Qed.

(** ** The defaults of the configuration *)

(** C8 (the code departs from it): the configuration file of the scenario
    leaves every optional field out.  Loading succeeds and [ListenPort] is
    1602, but the servers are stored as they were read: port 0, timeout 0,
    baud rate 0, data bits 0, stop bits 0, empty parity.  The defaults are
    set in the copy [validateServer] works on, and [createClient] reads
    the stored values. *)
Theorem server_defaults_not_stored :
  let loaded := loadConfig Scenario.fs "config.yaml" in
  loaded.2 = None
  ∧ ListenPort loaded.1 = 1602
  ∧ Servers loaded.1 !! x01 = Some Scenario.tcpServer
  ∧ Servers loaded.1 !! x02 = Some Scenario.rtuServer
  ∧ (Port Scenario.tcpServer = 0 ∧ Timeout Scenario.tcpServer = 0)
  ∧ (BaudRate Scenario.rtuServer = 0 ∧ DataBits Scenario.rtuServer = 0
     ∧ StopBits Scenario.rtuServer = 0 ∧ Parity Scenario.rtuServer = ""%string
     ∧ Timeout Scenario.rtuServer = 0)
  ∧ (let copy := (validateServer x01 Scenario.tcpServer).1 in
     Port copy = 502 ∧ Timeout copy = 2)
  ∧ (let copy := (validateServer x02 Scenario.rtuServer).1 in
     BaudRate copy = 9600 ∧ DataBits copy = 8 ∧ StopBits copy = 1
     ∧ Parity copy = "N"%string ∧ Timeout copy = 2)
  ∧ (timeout <$> clients (fwd Scenario.started) !! x01) = Some 0
  ∧ (port <$> clients (fwd Scenario.started) !! x01) = Some 0
  ∧ (baudRate <$> clients (fwd Scenario.started) !! x02) = Some 0.
Proof. vm_compute. repeat split; reflexivity. Qed.

(** ** The health monitor *)

Lemma probed_handler (env : Env) (c : modbusClient) :
  handler (probed env c) = handler c.
Proof. unfold probed. destruct (probeOutcome env c); reflexivity. Qed.

Lemma probed_lastError (env : Env) (c : modbusClient) :
  lastError (probed env c) = probeOutcome env c.
Proof. unfold probed. destruct (probeOutcome env c); reflexivity. Qed.

Lemma probed_lastConn (env : Env) (c : modbusClient) :
  lastConn (probed env c)
  = match probeOutcome env c with
    | None => now env
    | Some _ => lastConn c
    end.
Proof. unfold probed. destruct (probeOutcome env c); reflexivity. Qed.

(** One iteration of the loop, on the entry [(slaveID, client)] of the
    clients. *)
Lemma checkConnection_spec (slaveID : byte) (client : modbusClient)
    (env : Env) (w : World) :
  clients (fwd w) !! slaveID = Some client →
  checkConnection slaveID client env w
  = (tt,
     {| fwd := set_clients (<[slaveID := probed env client]> (clients (fwd w)))
                 (fwd w);
        logs := logs w
                ++ transitionLines slaveID (lastError client)
                     (probeOutcome env client);
        calls := calls w ++ [(SlaveId (handler client), probeCall)] |}).
Proof.
  intros Hclient. unfold checkConnection, probed, probeOutcome. run_M.
  fold probeCall. simpl.
  destruct (backend env (SlaveId (handler client)) probeCall) as [res | err];
    simpl.
  - destruct (lastError client) as [last | ] eqn:Hlast; simpl.
    + unfold set_clients; simpl. rewrite insert_insert_eq. reflexivity.
    + rewrite app_nil_r. do 4 f_equal.
      destruct client; simpl in *; subst; reflexivity.
  - destruct (lastError client) as [last | ] eqn:Hlast; simpl;
      [ | reflexivity].
    destruct (decide (last = err)) as [-> | Hne].
    + rewrite bool_decide_eq_false_2 by (intros Hc; apply Hc; reflexivity).
      rewrite app_nil_r.
      assert (Hsame : set_lastError (Some err) client = client)
        by (destruct client; simpl in *; subst; reflexivity).
      rewrite Hsame, insert_id by exact Hclient.
      destruct w as [[cfg cs] lg cl]; reflexivity.
    + rewrite bool_decide_eq_true_2 by exact Hne. reflexivity.
Qed.

Lemma forRange_checkConnection (entries : list (byte * modbusClient))
    (env : Env) (w : World) :
  NoDup entries.*1 →
  (∀ id c, In (id, c) entries → clients (fwd w) !! id = Some c) →
  (forRange entries checkConnection env w).2
  = {| fwd := set_clients
                (foldl (fun m p => <[p.1 := probed env p.2]> m)
                   (clients (fwd w)) entries)
                (fwd w);
       logs := logs w
               ++ List.flat_map
                    (fun p => transitionLines p.1 (lastError p.2)
                                (probeOutcome env p.2))
                    entries;
       calls := calls w
                ++ List.map (fun p => (SlaveId (handler p.2), probeCall))
                     entries |}.
Proof.
  revert w. induction entries as [ | [id c] rest IH]; intros w Hnd Hin.
  - simpl. rewrite !app_nil_r. destruct w as [[cfg cs] lg cl]; reflexivity.
  - simpl in Hnd. apply NoDup_cons in Hnd as [Hfresh Hnd].
    change (forRange ((id, c) :: rest) checkConnection env w)
      with (let '(a, w') := checkConnection id c env w in
            forRange rest checkConnection env w').
    rewrite checkConnection_spec by (apply Hin; left; reflexivity).
    rewrite IH; [ | exact Hnd | ].
    + simpl. rewrite <- !app_assoc. reflexivity.
    + intros id' c' Hin'. simpl.
      rewrite lookup_insert_ne.
      * apply Hin. right. exact Hin'.
      * intros ->. apply Hfresh.
        apply list_elem_of_In in Hin'.
        apply (list_elem_of_fmap_2 fst) in Hin'. exact Hin'.
Qed.

Lemma foldl_probed_lookup (env : Env) (entries : list (byte * modbusClient))
    (m : gmap byte modbusClient) (id : byte) :
  NoDup entries.*1 →
  foldl (fun m p => <[p.1 := probed env p.2]> m) m entries !! id
  = match list_find (fun p => p.1 = id) entries with
    | Some (_, p) => Some (probed env p.2)
    | None => m !! id
    end.
Proof.
  revert m. induction entries as [ | [id' c] rest IH]; intros m Hnd.
  - reflexivity.
  - simpl in Hnd. apply NoDup_cons in Hnd as [Hfresh Hnd].
    simpl. rewrite IH by exact Hnd.
    destruct (decide (id' = id)) as [-> | Hne]; simpl.
    + destruct (list_find (fun p => p.1 = id) rest) as [[i p] | ] eqn:Hfind.
      * exfalso. apply list_find_Some in Hfind as (Hl & Hp & _).
        apply Hfresh. rewrite <- Hp.
        apply list_elem_of_fmap_2, list_elem_of_lookup. eauto.
      * simpl. apply lookup_insert_eq.
    + destruct (list_find (fun p => p.1 = id) rest) as [[i p] | ]; simpl;
        [reflexivity | ].
      apply lookup_insert_ne. exact Hne.
Qed.

(** The lines about one slave among those of a pass over the clients. *)
Lemma transitionLines_other (id id' : byte) (previous current : option string) :
  id' ≠ id →
  List.filter (monitorLineOf id) (transitionLines id' previous current) = [].
Proof.
  intros Hne. unfold transitionLines.
  destruct previous as [last | ], current as [err | ];
    try destruct (decide (last = err));
    cbn [List.filter monitorLineOf];
    rewrite ?bool_decide_eq_false_2 by exact Hne; reflexivity.
Qed.

Lemma transitionLines_same (id : byte) (previous current : option string) :
  List.filter (monitorLineOf id) (transitionLines id previous current)
  = transitionLines id previous current.
Proof.
  unfold transitionLines.
  destruct previous as [last | ], current as [err | ];
    try destruct (decide (last = err));
    cbn [List.filter monitorLineOf];
    rewrite ?bool_decide_eq_true_2 by reflexivity; reflexivity.
Qed.

Lemma filter_pass_lines (env : Env) (entries : list (byte * modbusClient))
    (id : byte) (c : modbusClient) :
  NoDup entries.*1 →
  In (id, c) entries →
  List.filter (monitorLineOf id)
    (List.flat_map
       (fun p => transitionLines p.1 (lastError p.2) (probeOutcome env p.2))
       entries)
  = transitionLines id (lastError c) (probeOutcome env c).
Proof.
  induction entries as [ | [id' c'] rest IH]; intros Hnd Hin; [contradiction | ].
  simpl in Hnd. apply NoDup_cons in Hnd as [Hfresh Hnd].
  simpl. rewrite List.filter_app.
  destruct Hin as [Heq | Hin].
  - inversion Heq; subst. rewrite transitionLines_same.
    assert (Hrest : List.filter (monitorLineOf id)
              (List.flat_map
                 (fun p => transitionLines p.1 (lastError p.2)
                             (probeOutcome env p.2)) rest) = []).
    { clear IH Hnd Heq. induction rest as [ | [i x] rest IHr]; [reflexivity | ].
      simpl. rewrite List.filter_app, transitionLines_other.
      - apply IHr. intros Hin. apply Hfresh. simpl. right. exact Hin.
      - intros ->. apply Hfresh. simpl. left. }
    rewrite Hrest, app_nil_r. reflexivity.
  - rewrite transitionLines_other, IH by
      (try assumption; intros ->; apply Hfresh;
       apply list_elem_of_In in Hin;
       apply (list_elem_of_fmap_2 fst) in Hin; exact Hin).
    reflexivity.
Qed.

(** One pass of [checkConnections]: every client is probed once. *)
Lemma checkConnections_spec (env : Env) (w : World) :
  (checkConnections env w).2
  = {| fwd := set_clients (probed env <$> clients (fwd w)) (fwd w);
       logs := logs w
               ++ List.flat_map
                    (fun p => transitionLines p.1 (lastError p.2)
                                (probeOutcome env p.2))
                    (map_to_list (clients (fwd w)));
       calls := calls w
                ++ List.map (fun p => (SlaveId (handler p.2), probeCall))
                     (map_to_list (clients (fwd w))) |}.
Proof.
  unfold checkConnections. run_M. simpl.
  rewrite forRange_checkConnection.
  - f_equal. f_equal. apply map_eq. intros i.
    rewrite foldl_probed_lookup by apply NoDup_fst_map_to_list.
    rewrite lookup_fmap.
    destruct (list_find (fun p => p.1 = i) (map_to_list (clients (fwd w))))
      as [[j [i' c]] | ] eqn:Hfind.
    + apply list_find_Some in Hfind as (Hl & Hp & _). simpl in Hp. subst i'.
      apply list_elem_of_lookup_2, elem_of_map_to_list in Hl.
      rewrite Hl. reflexivity.
    + destruct (clients (fwd w) !! i) as [c | ] eqn:Hc; [ | reflexivity].
      exfalso. apply elem_of_map_to_list in Hc.
      apply list_find_None in Hfind.
      rewrite Forall_forall in Hfind. apply (Hfind _ Hc). reflexivity.
  - apply NoDup_fst_map_to_list.
  - intros id c Hin. apply elem_of_map_to_list, list_elem_of_In. exact Hin.
Qed.

Lemma checkConnections_lines (env : Env) (w : World) (id : byte)
    (c : modbusClient) :
  clients (fwd w) !! id = Some c →
  List.filter (monitorLineOf id) (emitted w (checkConnections env w).2)
  = transitionLines id (lastError c) (probeOutcome env c).
Proof.
  intros Hc. unfold emitted. rewrite checkConnections_spec. simpl.
  rewrite drop_app_length.
  apply filter_pass_lines; [apply NoDup_fst_map_to_list | ].
  apply list_elem_of_In, elem_of_map_to_list. exact Hc.
Qed.

Lemma checkConnections_client (env : Env) (w : World) (id : byte) :
  clients (fwd (checkConnections env w).2) !! id
  = probed env <$> clients (fwd w) !! id.
Proof. rewrite checkConnections_spec. simpl. apply lookup_fmap. Qed.

(** The client of a slave after the ticks of the monitor. *)
Lemma monitorConnections_client (ticks : list Env) (w : World) (id : byte)
    (c : modbusClient) :
  clients (fwd w) !! id = Some c →
  clients (fwd (monitorConnections ticks w)) !! id
  = Some (foldl (fun c env => probed env c) c ticks).
Proof.
  revert w c. induction ticks as [ | env rest IH]; intros w c Hc; simpl.
  - exact Hc.
  - apply IH. rewrite checkConnections_client, Hc. reflexivity.
Qed.

Lemma foldl_probed_handler (ticks : list Env) (c : modbusClient) :
  handler (foldl (fun c env => probed env c) c ticks) = handler c.
Proof.
  revert c. induction ticks as [ | env rest IH]; intros c; simpl;
    [reflexivity | ].
  rewrite IH. apply probed_handler.
Qed.

Lemma foldl_probed_lastError (ticks : list Env) (c : modbusClient) :
  lastError (foldl (fun c env => probed env c) c ticks)
  = match last ticks with
    | None => lastError c
    | Some env => probeOutcome env c
    end.
Proof.
  induction ticks as [ | env rest IH] using rev_ind; [reflexivity | ].
  rewrite foldl_app, last_snoc. simpl.
  rewrite probed_lastError. unfold probeOutcome.
  rewrite foldl_probed_handler. reflexivity.
Qed.

(** C7, amended: over any sequence of ticks, a probe writes a line about
    a slave exactly when its outcome differs from the one retained in the
    client's [lastError] (the outcome of the previous probe, or the initial
    [lastError]): on a change from healthy to failing, from failing to
    healthy, and also from one error message to another; two consecutive
    failing probes with the same message write no second line.  After the
    probe, [lastError] holds its outcome. *)
Theorem probe_logs_changes_of_outcome (ticks : list Env) (env : Env)
    (w : World) (id : byte) (c : modbusClient) :
  clients (fwd w) !! id = Some c →
  let before := monitorConnections ticks w in
  let after := (checkConnections env before).2 in
  let previous := match last ticks with
                  | None => lastError c
                  | Some tick => probeOutcome tick c
                  end in
  let current := probeOutcome env c in
  List.filter (monitorLineOf id) (emitted before after)
  = match previous, current with
    | None, None => []
    | None, Some err => [LogConnectionException id err]
    | Some _, None => [LogConnectionRestored id]
    | Some last, Some err =>
        if decide (last = err) then [] else [LogConnectionException id err]
    end
  ∧ (lastError <$> clients (fwd after) !! id) = Some current.
Proof.
  intros Hc before after previous current.
  pose proof (monitorConnections_client ticks w id c Hc) as Hbefore.
  fold before in Hbefore.
  split.
  - unfold after.
    rewrite (checkConnections_lines env before id _ Hbefore).
    rewrite foldl_probed_lastError. fold previous.
    unfold probeOutcome at 1. rewrite foldl_probed_handler.
    reflexivity.
  - unfold after. rewrite checkConnections_client, Hbefore. simpl.
    rewrite probed_lastError. unfold probeOutcome.
    rewrite foldl_probed_handler. reflexivity.
Qed.

Lemma probe_logs_changes_of_outcome_witness :
  let ticks := [Scenario.answering; Scenario.failing "timeout"] in
  let before := monitorConnections ticks Scenario.started in
  let after := (checkConnections (Scenario.failing "timeout") before).2 in
  let restored := (checkConnections Scenario.answering after).2 in
  List.filter (monitorLineOf x01) (emitted before after) = []
  ∧ List.filter (monitorLineOf x01) (emitted after restored)
    = [LogConnectionRestored x01].
Proof.
  intros ticks before after restored.
  destruct (clients (fwd Scenario.started) !! x01) as [c | ] eqn:Hc;
    [ | vm_compute in Hc; discriminate].
  assert (Hunit : SlaveId (handler c) = x01)
    by (vm_compute in Hc; inversion Hc; reflexivity).
  split.
  - destruct (probe_logs_changes_of_outcome ticks (Scenario.failing "timeout")
                Scenario.started x01 c Hc) as [Hlines _].
    exact Hlines.
  - destruct (probe_logs_changes_of_outcome
                (ticks ++ [Scenario.failing "timeout"]) Scenario.answering
                Scenario.started x01 c Hc) as [Hlines _].
    unfold probeOutcome in Hlines. rewrite Hunit in Hlines.
    exact Hlines.
Defined.

(** C7 as stated fails: slave 1 fails a probe with "timeout" and the next
    with "connection refused"; it is failing before and after the second
    probe, and the second probe writes a line. *)
Lemma changed_error_logged_without_transition :
  let before :=
    monitorConnections [Scenario.failing "timeout"] Scenario.started in
  let after :=
    (checkConnections (Scenario.failing "connection refused") before).2 in
  (healthy <$> clients (fwd before) !! x01) = Some false
  ∧ (healthy <$> clients (fwd after) !! x01) = Some false
  ∧ List.filter (monitorLineOf x01) (emitted before after)
    = [LogConnectionException x01 "connection refused"]
  ∧ ¬ (List.filter (monitorLineOf x01) (emitted before after) ≠ []
       ↔ (healthy <$> clients (fwd before) !! x01)
         ≠ (healthy <$> clients (fwd after) !! x01)).
Proof.
  intros before after.
  assert (Hb : (healthy <$> clients (fwd before) !! x01) = Some false)
    by (vm_compute; reflexivity).
  assert (Ha : (healthy <$> clients (fwd after) !! x01) = Some false)
    by (vm_compute; reflexivity).
  assert (Hl : List.filter (monitorLineOf x01) (emitted before after)
               = [LogConnectionException x01 "connection refused"])
    by (vm_compute; reflexivity).
  repeat split; try assumption.
  intros [Hto _]. rewrite Hl, Hb, Ha in Hto.
  apply Hto; [discriminate | reflexivity].
Qed.

(** ** The health state and the request path *)

(** C6, amended: a round trip on the request path, successful or failed,
    leaves the forwarder as it was: the [lastConn], the [lastError] and the
    handler (so the transport) of every client are untouched by each of the
    eight handlers.  The health state is written by the probe of the health
    monitor: after a successful probe [lastConn] is the current time and
    [lastError] is cleared; after a failed probe [lastError] is the error
    and [lastConn] is unchanged; the handler is not closed by either. *)
Theorem health_state_written_by_monitor_only {F : Type} `{Framer F} :
  (∀ (frame : F) env w function h,
     In (function, h) registerHandlers →
     fwd (h frame env w).2 = fwd w)
  ∧ (∀ env w id c,
       clients (fwd w) !! id = Some c →
       ∃ c',
         clients (fwd (checkConnections env w).2) !! id = Some c'
         ∧ handler c' = handler c
         ∧ match backend env (SlaveId (handler c)) probeCall with
           | Ok _ => lastConn c' = now env ∧ lastError c' = None
           | Err err => lastError c' = Some err ∧ lastConn c' = lastConn c
           end).
Proof.
  split.
  - intros frame env w function h Hin.
    exact (handler_keeps_forwarder frame env w function h Hin).
  - intros env w id c Hc. exists (probed env c).
    split; [rewrite checkConnections_client, Hc; reflexivity | ].
    split; [apply probed_handler | ].
    pose proof (probed_lastError env c) as He.
    pose proof (probed_lastConn env c) as Ht.
    unfold probeOutcome in He, Ht.
    destruct (backend env (SlaveId (handler c)) probeCall); simpl in He, Ht;
      split; assumption.
Qed.

(** C6 as stated fails.  Slave 1 has failed a probe, so its [lastError] is
    set; a Read Holding Registers request to it then succeeds, and its
    [lastConn] is not the current time and its [lastError] is not cleared.
    And a request to a healthy slave 1 whose round trip fails leaves its
    [lastError] empty. *)
Lemma request_leaves_health_state :
  let degraded :=
    monitorConnections [Scenario.failing "timeout"] Scenario.started in
  let frame := Scenario.request x01 x03 [x00; x00; x00; x02] in
  let served := readHoldingRegisters frame Scenario.answering degraded in
  let failed :=
    readHoldingRegisters frame (Scenario.failing "timeout") Scenario.started in
  (served.1.2 = Success
   ∧ calls served.2 = calls degraded ++ [(x01, ReadHoldingRegisters 0 2)]
   ∧ ¬ (∃ c, clients (fwd served.2) !! x01 = Some c
             ∧ lastConn c = now Scenario.answering ∧ lastError c = None))
  ∧ (failed.1.2 = SlaveDeviceFailure
     ∧ ¬ (∃ c, clients (fwd failed.2) !! x01 = Some c
               ∧ is_Some (lastError c))).
Proof.
  intros degraded frame served failed. split.
  - split; [vm_compute; reflexivity | ].
    split; [vm_compute; reflexivity | ].
    intros (c & Hc & _ & Herr).
    vm_compute in Hc. inversion Hc; subst c. discriminate Herr.
  - split; [vm_compute; reflexivity | ].
    intros (c & Hc & [e Herr]).
    vm_compute in Hc. inversion Hc; subst c. discriminate Herr.
Qed.

Lemma health_state_written_by_monitor_only_witness :
  let frame := Scenario.request x01 x01 [x00; x00; x00; x08] in
  fwd (readCoils frame Scenario.answering Scenario.started).2
  = fwd Scenario.started
  ∧ ∃ c, clients (fwd (checkConnections Scenario.answering Scenario.started).2)
           !! x01 = Some c
         ∧ lastConn c = 1700000000 ∧ lastError c = None.
Proof.
  intros frame.
  destruct (@health_state_written_by_monitor_only TCPFrame _)
    as [Hrequest Hprobe].
  split.
  - apply (Hrequest frame Scenario.answering Scenario.started x01 readCoils).
    simpl. auto.
  - destruct (clients (fwd Scenario.started) !! x01) as [c | ] eqn:Hc;
      [ | vm_compute in Hc; discriminate].
    destruct (Hprobe Scenario.answering Scenario.started x01 c Hc)
      as (c' & Hc' & _ & Hhealth).
    exists c'. split; [exact Hc' | ].
    simpl in Hhealth. exact Hhealth.
Defined.

(** ** Shutdown *)

(** In the scenario [Stop] closes the handler of both clients, and a pass
    of the health monitor with failing backends closes neither. *)
Example stop_closes_the_transports :
  let stopped := (Stop Scenario.answering Scenario.started).2 in
  let checked :=
    (checkConnections (Scenario.failing "timeout") Scenario.started).2 in
  (fun p => (p.1, Closed (handler p.2))) <$> map_to_list (clients (fwd stopped))
  ≡ₚ [(x01, true); (x02, true)]
  ∧ (fun p => (p.1, Closed (handler p.2))) <$> map_to_list (clients (fwd checked))
    ≡ₚ [(x01, false); (x02, false)].
Proof.
  vm_compute. split; [ | apply perm_swap].
  apply perm_swap.
Qed.

(** * Further properties of the code *)

(** ** config.go: what validation accepts *)

Lemma validateServer_accepts_iff (slaveID : byte) (server : Server) :
  (validateServer slaveID server).2 = None ↔ acceptable slaveID server.
Proof.
  unfold validateServer, acceptable.
  pose proof (byte_to_Z_range slaveID) as Hr.
  destruct (Z.ltb_spec (byte_to_Z slaveID) 1) as [Hz | Hnz]; simpl.
  - split; [discriminate | ]. intros [Hne _]. exfalso. apply Hne.
    apply byte_to_Z_zero. lia.
  - assert (Hne : slaveID ≠ x00) by (intros ->; change (byte_to_Z x00) with 0 in Hnz; lia).
    destruct (Z.ltb_spec 255 (byte_to_Z slaveID)) as [? | _]; [lia | ]. simpl.
    case_bool_decide as Hempty; simpl.
    { split; [discriminate | ]. intros (_ & [Ht | Ht] & _);
        rewrite Hempty in Ht; discriminate. }
    case_bool_decide as Htcp; case_bool_decide as Hrtu; simpl.
    + split; [discriminate | ]. intros (_ & [Ht | Ht] & _); contradiction.
    + assert (Hno : ConnType server = "tcp"%string → False)
        by (intros Ht; rewrite Ht in Hrtu; discriminate).
      rewrite bool_decide_eq_false_2 by exact Hno.
      rewrite bool_decide_eq_true_2 by exact Hrtu.
      case_bool_decide as Haddr; simpl; split; try discriminate; try tauto.
    + rewrite bool_decide_eq_true_2 by exact Htcp.
      case_bool_decide as Haddr; simpl; split; try discriminate; try tauto.
    + exfalso. rewrite Htcp in Hrtu. discriminate.
Qed.

Lemma validateServers_accepts_iff (entries : list (byte * Server)) :
  validateServers entries = None
  ↔ ∀ slaveID server, In (slaveID, server) entries → acceptable slaveID server.
Proof.
  induction entries as [ | [id srv] rest IH]; simpl.
  - split; [intros _ ? ? [] | reflexivity].
  - pose proof (validateServer_accepts_iff id srv) as Hv.
    destruct (validateServer id srv) as [copy [err | ]]; simpl in Hv.
    + split; [discriminate | ]. intros Hall.
      apply Hv, Hall. left. reflexivity.
    + rewrite IH. split.
      * intros Hall slaveID server [Heq | Hin];
          [inversion Heq; subst; apply Hv; reflexivity | exact (Hall _ _ Hin)].
      * intros Hall slaveID server Hin. apply Hall. right. exact Hin.
Qed.

Lemma validateConfig_accepts_iff (C : Config) :
  (validateConfig C).2 = None
  ↔ Servers C ≠ ∅
    ∧ ∀ slaveID server,
        Servers C !! slaveID = Some server → acceptable slaveID server.
Proof.
  assert (Hrun : (validateConfig C).2
                 = if (size (Servers C) =? 0)%nat then Some ErrNoServers
                   else validateServers (map_to_list (Servers C))).
  { unfold validateConfig. destruct (ListenPort C <=? 0); simpl;
      destruct (_ =? _)%nat; reflexivity. }
  rewrite Hrun.
  destruct (Nat.eqb_spec (size (Servers C)) 0) as [Hsize | Hsize].
  - apply map_size_empty_iff in Hsize.
    split; [discriminate | ]. intros [Hne _]. contradiction.
  - rewrite validateServers_accepts_iff. split.
    + intros Hall. split.
      * intros Hempty. apply Hsize, map_size_empty_iff, Hempty.
      * intros slaveID server Hin. apply Hall.
        apply list_elem_of_In, elem_of_map_to_list, Hin.
    + intros [_ Hall] slaveID server Hin. apply Hall.
      apply elem_of_map_to_list, list_elem_of_In, Hin.
Qed.

Lemma validateConfig_ListenPort (C : Config) :
  ListenPort (validateConfig C).1
  = (if ListenPort C <=? 0 then 1602 else ListenPort C).
Proof.
  unfold validateConfig. destruct (ListenPort C <=? 0); simpl;
    destruct (_ =? _)%nat; reflexivity.
Qed.

(** X1: [validateConfig] returns no error exactly when there is at least
    one server and every server has a slave identifier other than 0, the
    connection type "tcp" or "rtu" (in lower case) and a non-empty address;
    no other field is looked at.  Whatever it returns, the servers are left
    as they were and the listen port is 1602 if it was not positive. *)
Theorem validateConfig_accepts_exactly (C : Config) :
  ((validateConfig C).2 = None
   ↔ Servers C ≠ ∅
     ∧ ∀ slaveID server,
         Servers C !! slaveID = Some server → acceptable slaveID server)
  ∧ Servers (validateConfig C).1 = Servers C
  ∧ ListenPort (validateConfig C).1
    = (if ListenPort C <=? 0 then 1602 else ListenPort C).
Proof.
  split; [apply validateConfig_accepts_iff | ].
  split; [apply validateConfig_Servers | apply validateConfig_ListenPort].
Qed.

(** What a successful [loadConfig] went through. *)
Lemma loadConfig_success (fs : string → FileResult) (path : string) :
  (loadConfig fs path).2 = None →
  path ≠ ""%string
  ∧ ∃ decoded, fs path = Unmarshalled decoded
               ∧ (validateConfig decoded).2 = None
               ∧ (loadConfig fs path).1 = (validateConfig decoded).1.
Proof.
  unfold loadConfig. case_bool_decide as Hpath; simpl; [discriminate | ].
  destruct (fs path) as [ | | decoded]; simpl; try discriminate.
  destruct (validateConfig decoded) as [C [err | ]] eqn:Hv; simpl;
    [discriminate | ].
  intros _. split; [exact Hpath | ]. exists decoded.
  rewrite Hv. repeat split.
Qed.

(** X2: [loadConfig] succeeds exactly when the path is not empty, the file
    is read and decoded, and the decoded configuration passes
    [validateConfig]; the configuration it leaves then has a positive
    listen port, the decoded servers, at least one of them and no slave
    0. *)
Theorem loadConfig_succeeds_exactly (fs : string → FileResult) (path : string) :
  ((loadConfig fs path).2 = None
   ↔ path ≠ ""%string
     ∧ ∃ decoded, fs path = Unmarshalled decoded
                  ∧ (validateConfig decoded).2 = None)
  ∧ ((loadConfig fs path).2 = None →
     0 < ListenPort (loadConfig fs path).1
     ∧ Servers (loadConfig fs path).1 ≠ ∅
     ∧ Servers (loadConfig fs path).1 !! x00 = None
     ∧ ∃ decoded, fs path = Unmarshalled decoded
                  ∧ Servers (loadConfig fs path).1 = Servers decoded).
Proof.
  unfold loadConfig.
  case_bool_decide as Hpath; simpl.
  { split; [split; [discriminate | intros [Hne _]; contradiction]
           | discriminate]. }
  destruct (fs path) as [ | | decoded] eqn:Hfs; simpl.
  - split; [split; [discriminate | intros (_ & d & Hd & _); discriminate]
           | discriminate].
  - split; [split; [discriminate | intros (_ & d & Hd & _); discriminate]
           | discriminate].
  - pose proof (validateConfig_accepts_iff decoded) as Hacc.
    pose proof (validateConfig_Servers decoded) as HS.
    pose proof (validateConfig_ListenPort decoded) as HP.
    destruct (validateConfig decoded) as [C [err | ]] eqn:Hv; simpl in *.
    + split; [split; [discriminate | ] | discriminate].
      intros (_ & d & Hd & Hok). inversion Hd; subst d.
      rewrite Hv in Hok. discriminate.
    + split.
      * split; [intros _ | reflexivity].
        split; [exact Hpath | ]. exists decoded. rewrite Hv. split; reflexivity.
      * intros _. split; [rewrite HP; destruct (Z.leb_spec (ListenPort decoded) 0); lia | ].
        split; [rewrite HS; apply Hacc; reflexivity | ].
        split; [exact (validateConfig_no_zero decoded C Hv) | ].
        exists decoded. split; [reflexivity | exact HS].
Qed.

Lemma loadConfig_succeeds_exactly_witness :
  (loadConfig Scenario.fs "config.yaml").2 = None
  ∧ 0 < ListenPort (loadConfig Scenario.fs "config.yaml").1
  ∧ Servers (loadConfig Scenario.fs "config.yaml").1 !! x00 = None.
Proof.
  destruct (loadConfig_succeeds_exactly Scenario.fs "config.yaml")
    as [_ Hgives].
  assert (Hok : (loadConfig Scenario.fs "config.yaml").2 = None)
    by (vm_compute; reflexivity).
  destruct (Hgives Hok) as (Hport & _ & Hzero & _).
  split; [exact Hok | split; [exact Hport | exact Hzero]].
Defined.

(** ** forwarder.go: the clients of a forwarder *)

Lemma createClient_creatable (slaveID : byte) (server : Server) :
  creatable server →
  ∃ client,
    createClient slaveID server = inl client
    ∧ SlaveId (handler client) = slaveID
    ∧ Closed (handler client) = false
    ∧ lastError client = None
    ∧ lastConn client = 0
    ∧ connType client = ConnType server
    ∧ timeout client = int64 (int64 (Timeout server) * Second).
Proof.
  unfold creatable, createClient. intros Hc.
  destruct (bool_decide (ConnType server = "tcp"%string)
            || bool_decide (ConnType server = "TCP"%string)) eqn:Htcp.
  - eexists. repeat split.
  - apply orb_false_iff in Htcp as [Ht1 Ht2].
    apply bool_decide_eq_false in Ht1, Ht2.
    destruct (bool_decide (ConnType server = "rtu"%string)
              || bool_decide (ConnType server = "RTU"%string)) eqn:Hrtu.
    + eexists. repeat split.
    + apply orb_false_iff in Hrtu as [Hr1 Hr2].
      apply bool_decide_eq_false in Hr1, Hr2. tauto.
Qed.

Lemma createClient_not_creatable (slaveID : byte) (server : Server) :
  ¬ creatable server →
  createClient slaveID server = inr (ErrCreateHandler (ConnType server)).
Proof.
  unfold creatable, createClient. intros Hc.
  rewrite !bool_decide_eq_false_2 by tauto. reflexivity.
Qed.

Lemma creatable_dec (server : Server) : creatable server ∨ ¬ creatable server.
Proof.
  unfold creatable.
  destruct (decide (ConnType server = "tcp"%string)); [tauto | ].
  destruct (decide (ConnType server = "TCP"%string)); [tauto | ].
  destruct (decide (ConnType server = "rtu"%string)); [tauto | ].
  destruct (decide (ConnType server = "RTU"%string)); tauto.
Qed.

Lemma acceptable_creatable (slaveID : byte) (server : Server) :
  acceptable slaveID server → creatable server.
Proof. unfold acceptable, creatable. tauto. Qed.

(** The loop of [initClients] over servers that all have a handler. *)
Lemma initClientsLoop_creatable (entries : list (byte * Server)) (env : Env)
    (w : World) :
  NoDup entries.*1 →
  (∀ id server, In (id, server) entries → creatable server) →
  let r := initClientsLoop entries env w in
  r.1 = None
  ∧ config (fwd r.2) = config (fwd w)
  ∧ calls r.2 = calls w
  ∧ logs r.2
    = logs w ++ List.map (fun p => LogInitialized p.1 (ConnType p.2)) entries
  ∧ (∀ id, ¬ In id entries.*1 →
           clients (fwd r.2) !! id = clients (fwd w) !! id)
  ∧ (∀ id server, In (id, server) entries →
       ∃ client, createClient id server = inl client
                 ∧ clients (fwd r.2) !! id = Some client).
Proof.
  revert w. induction entries as [ | [id0 srv0] rest IH]; intros w Hnd Hall.
  - simpl. rewrite app_nil_r. repeat split; try reflexivity.
    intros id server [].
  - simpl in Hnd. apply NoDup_cons in Hnd as [Hfresh Hnd].
    destruct (createClient_creatable id0 srv0) as (c0 & Hc0 & _);
      [apply (Hall id0 srv0); left; reflexivity | ].
    cbn [initClientsLoop]. rewrite Hc0. run_M. simpl.
    set (w1 := {| fwd := set_clients (<[id0 := c0]> (clients (fwd w))) (fwd w);
                  logs := logs w ++ [LogInitialized id0 (ConnType srv0)];
                  calls := calls w |}).
    destruct (IH w1 Hnd) as (Hnone & Hcfg & Hcalls & Hlogs & Hother & Hin).
    { intros id server Hi. apply (Hall id server). right. exact Hi. }
    destruct (initClientsLoop rest env w1) as [res w2] eqn:Hloop.
    simpl in *.
    split; [exact Hnone | ].
    split; [exact Hcfg | ].
    split; [exact Hcalls | ].
    split; [rewrite Hlogs, <- app_assoc; reflexivity | ].
    split.
    + intros id Hnot. rewrite Hother by tauto.
      apply lookup_insert_ne. intros ->. tauto.
    + intros id server [Heq | Hi].
      * inversion Heq; subst. exists c0. split; [exact Hc0 | ].
        rewrite Hother; [apply lookup_insert_eq | ].
        intros Hi. apply Hfresh, list_elem_of_In, Hi.
      * apply Hin, Hi.
Qed.

(** [initClients] on a new forwarder whose servers all have a handler. *)
Lemma initClients_lookup (C : Config) (env : Env) :
  (∀ id server, Servers C !! id = Some server → creatable server) →
  let r := initClients env (fresh C) in
  r.1 = None
  ∧ calls r.2 = []
  ∧ config (fwd r.2) = C
  ∧ (∀ id, Servers C !! id = None → clients (fwd r.2) !! id = None)
  ∧ (∀ id server, Servers C !! id = Some server →
       ∃ client, clients (fwd r.2) !! id = Some client
                 ∧ createClient id server = inl client).
Proof.
  intros Hall r.
  destruct (initClientsLoop_creatable (map_to_list (Servers C)) env (fresh C))
    as (Hnone & Hcfg & Hcalls & _ & Hother & Hin).
  { apply NoDup_fst_map_to_list. }
  { intros id server Hi. apply (Hall id server).
    apply elem_of_map_to_list, list_elem_of_In, Hi. }
  assert (Hr : r = initClientsLoop (map_to_list (Servers C)) env (fresh C))
    by reflexivity.
  rewrite <- Hr in Hnone, Hcfg, Hcalls, Hother, Hin.
  split; [exact Hnone | ].
  split; [exact Hcalls | ].
  split; [exact Hcfg | ].
  split.
  - intros id Hs. rewrite Hother; [apply lookup_empty | ].
    intros Hi. apply list_elem_of_In, list_elem_of_fmap in Hi
      as ([id' server] & -> & Hi).
    apply elem_of_map_to_list in Hi. simpl in Hs. congruence.
  - intros id server Hs.
    destruct (Hin id server) as (client & Hc & Hl).
    { apply list_elem_of_In, elem_of_map_to_list, Hs. }
    exists client. split; assumption.
Qed.

(** X3: when every configured server has one of the connection types
    "tcp", "TCP", "rtu", "RTU", [initClients] on a new forwarder returns no
    error, calls no backend, and leaves exactly one client per configured
    slave: the clients have the keys of the servers, and the client of a
    slave is the one [createClient] builds for it, whose handler carries
    that slave identifier, is open, and has no recorded error. *)
Theorem initClients_builds_clients (C : Config) (env : Env) :
  (∀ id server, Servers C !! id = Some server → creatable server) →
  let r := initClients env (fresh C) in
  r.1 = None
  ∧ calls r.2 = []
  ∧ config (fwd r.2) = C
  ∧ dom (clients (fwd r.2)) = dom (Servers C)
  ∧ (∀ id server, Servers C !! id = Some server →
       ∃ client, clients (fwd r.2) !! id = Some client
                 ∧ createClient id server = inl client
                 ∧ SlaveId (handler client) = id
                 ∧ Closed (handler client) = false
                 ∧ lastError client = None).
Proof.
  intros Hall r.
  destruct (initClients_lookup C env Hall)
    as (Hnone & Hcalls & Hcfg & Hother & Hin).
  fold r in Hnone, Hcalls, Hcfg, Hother, Hin.
  split; [exact Hnone | ].
  split; [exact Hcalls | ].
  split; [exact Hcfg | ].
  split.
  - apply set_eq. intros id. rewrite !elem_of_dom. split.
    + intros [client Hl].
      destruct (Servers C !! id) as [server | ] eqn:Hs; [eauto | ].
      rewrite (Hother id Hs) in Hl. discriminate.
    + intros [server Hs]. destruct (Hin id server Hs) as (client & Hl & _).
      eauto.
  - intros id server Hs.
    destruct (Hin id server Hs) as (client & Hl & Hc).
    destruct (createClient_creatable id server (Hall id server Hs))
      as (c' & Hc' & Hid & Hopen & Herr & _).
    rewrite Hc in Hc'. inversion Hc'; subst c'.
    exists client. repeat split; assumption.
Qed.

Lemma initClients_builds_clients_witness :
  let r := initClients Scenario.answering (fresh Scenario.C) in
  r.1 = None
  ∧ dom (clients (fwd r.2)) = dom (Servers Scenario.C).
Proof.
  assert (Hall : ∀ id server,
            Servers Scenario.C !! id = Some server → creatable server).
  { intros id server Hs. apply (acceptable_creatable id).
    destruct (validateConfig_accepts_iff Scenario.file) as [Hto _].
    destruct Hto as [_ Hacc]; [vm_compute; reflexivity | ].
    apply Hacc. exact Hs. }
  destruct (initClients_builds_clients Scenario.C Scenario.answering Hall)
    as (Hnone & _ & _ & Hdom & _).
  split; [exact Hnone | exact Hdom].
Defined.

Lemma initClientsLoop_result (entries : list (byte * Server)) (env : Env)
    (w : World) :
  let r := initClientsLoop entries env w in
  calls r.2 = calls w
  ∧ config (fwd r.2) = config (fwd w)
  ∧ match r.1 with
    | None => ∀ id server, In (id, server) entries → creatable server
    | Some err =>
        ∃ id server,
          In (id, server) entries ∧ ¬ creatable server
          ∧ err = ErrCreateClient id (ErrCreateHandler (ConnType server))
    end.
Proof.
  revert w. induction entries as [ | [id0 srv0] rest IH]; intros w.
  - simpl. repeat split. intros id server [].
  - cbn [initClientsLoop].
    destruct (creatable_dec srv0) as [Hc | Hc].
    + destruct (createClient_creatable id0 srv0 Hc) as (c0 & Hc0 & _).
      rewrite Hc0. run_M. simpl.
      set (w1 := {| fwd := set_clients (<[id0 := c0]> (clients (fwd w))) (fwd w);
                    logs := logs w ++ [LogInitialized id0 (ConnType srv0)];
                    calls := calls w |}).
      destruct (IH w1) as (Hcalls & Hcfg & Hres).
      destruct (initClientsLoop rest env w1) as [res w2]. simpl in *.
      split; [exact Hcalls | split; [exact Hcfg | ]].
      destruct res as [err | ].
      * destruct Hres as (id & server & Hi & Hn & He).
        exists id, server. split; [right; exact Hi | split; assumption].
      * intros id server [Heq | Hi];
          [inversion Heq; subst; exact Hc | exact (Hres id server Hi)].
    + rewrite (createClient_not_creatable id0 srv0 Hc). run_M. simpl.
      repeat split. exists id0, srv0.
      split; [left; reflexivity | split; [exact Hc | reflexivity]].
Qed.

(** X4: [initClients] fails exactly when some configured server has a
    connection type other than "tcp", "TCP", "rtu" and "RTU"; its error then
    names such a slave and connection type.  Failing or not, it calls no
    backend and leaves the configuration alone. *)
Theorem initClients_fails_exactly (env : Env) (w : World) :
  let r := initClients env w in
  (r.1 = None
   ↔ ∀ id server,
       Servers (config (fwd w)) !! id = Some server → creatable server)
  ∧ (∀ err, r.1 = Some err →
       ∃ id server,
         Servers (config (fwd w)) !! id = Some server
         ∧ ¬ creatable server
         ∧ err = ErrCreateClient id (ErrCreateHandler (ConnType server)))
  ∧ calls r.2 = calls w
  ∧ config (fwd r.2) = config (fwd w).
Proof.
  intros r.
  pose proof (initClientsLoop_result
                (map_to_list (Servers (config (fwd w)))) env w)
    as (Hcalls & Hcfg & Hres).
  assert (Hr : r = initClientsLoop (map_to_list (Servers (config (fwd w))))
                     env w) by reflexivity.
  rewrite <- Hr in Hcalls, Hcfg, Hres.
  split; [ | split; [ | split; assumption]].
  - split.
    + intros Hnone id server Hs. rewrite Hnone in Hres.
      apply (Hres id server), list_elem_of_In, elem_of_map_to_list, Hs.
    + intros Hall. destruct (r.1) as [err | ]; [ | reflexivity].
      destruct Hres as (id & server & Hi & Hn & _). exfalso. apply Hn.
      apply (Hall id), elem_of_map_to_list, list_elem_of_In, Hi.
  - intros err Herr. rewrite Herr in Hres.
    destruct Hres as (id & server & Hi & Hn & He).
    exists id, server.
    split; [apply elem_of_map_to_list, list_elem_of_In, Hi | ].
    split; assumption.
Qed.

(** The clients of a forwarder started on a loaded configuration. *)
Lemma loaded_clients (fs : string → FileResult) (path : string) (env : Env) :
  (loadConfig fs path).2 = None →
  let r := initClients env (fresh (loadConfig fs path).1) in
  r.1 = None
  ∧ dom (clients (fwd r.2)) = dom (Servers (loadConfig fs path).1)
  ∧ ∀ id client,
      clients (fwd r.2) !! id = Some client →
      SlaveId (handler client) = id ∧ id ≠ x00.
Proof.
  intros Hok r.
  destruct (loadConfig_success fs path Hok)
    as (_ & decoded & _ & Hvalid & Hloaded).
  assert (HS : Servers (loadConfig fs path).1 = Servers decoded)
    by (rewrite Hloaded; apply validateConfig_Servers).
  assert (Hzero : Servers (loadConfig fs path).1 !! x00 = None).
  { rewrite Hloaded.
    apply (validateConfig_no_zero decoded).
    destruct (validateConfig decoded) as [C err]. simpl in *.
    rewrite Hvalid. reflexivity. }
  destruct (validateConfig_accepts_iff decoded) as [Hacc _].
  destruct (Hacc Hvalid) as [_ Hall].
  assert (Hcreatable : ∀ id server,
            Servers (loadConfig fs path).1 !! id = Some server →
            creatable server).
  { intros id server Hs. rewrite HS in Hs.
    exact (acceptable_creatable id server (Hall id server Hs)). }
  destruct (initClients_lookup (loadConfig fs path).1 env Hcreatable)
    as (Hnone & _ & _ & Hother & Hclients).
  fold r in Hnone, Hother, Hclients.
  assert (Hdom : dom (clients (fwd r.2)) = dom (Servers (loadConfig fs path).1)).
  { apply set_eq. intros id. rewrite !elem_of_dom. split.
    - intros [client Hl].
      destruct (Servers (loadConfig fs path).1 !! id) as [server | ] eqn:Hs;
        [eauto | ].
      rewrite (Hother id Hs) in Hl. discriminate.
    - intros [server Hs].
      destruct (Hclients id server Hs) as (client & Hl & _). eauto. }
  split; [exact Hnone | split; [exact Hdom | ]].
  intros id client Hl.
  assert (Hin : id ∈ dom (Servers (loadConfig fs path).1)).
  { rewrite <- Hdom. apply elem_of_dom. eauto. }
  apply elem_of_dom in Hin as [server Hs].
  destruct (Hclients id server Hs) as (client' & Hl' & Hc).
  rewrite Hl in Hl'. inversion Hl'; subst client'.
  destruct (createClient_creatable id server (Hcreatable id server Hs))
    as (c' & Hc' & Hid & _).
  rewrite Hc in Hc'. inversion Hc'; subst c'.
  split; [exact Hid | ].
  intros ->. rewrite Hzero in Hs. discriminate.
Qed.

(** X5: a configuration that [loadConfig] accepted always starts: on it
    [initClients] returns no error, calls no backend, keeps the
    configuration, and builds a client for every configured slave and for
    no other, each addressing its own slave, none of them slave 0. *)
Theorem loaded_config_initializes (fs : string → FileResult) (path : string)
    (env : Env) :
  (loadConfig fs path).2 = None →
  let r := initClients env (fresh (loadConfig fs path).1) in
  r.1 = None
  ∧ calls r.2 = []
  ∧ config (fwd r.2) = (loadConfig fs path).1
  ∧ dom (clients (fwd r.2)) = dom (Servers (loadConfig fs path).1)
  ∧ ∀ id client,
      clients (fwd r.2) !! id = Some client →
      SlaveId (handler client) = id ∧ id ≠ x00.
Proof.
  intros Hok r.
  destruct (loaded_clients fs path env Hok) as (Hnone & Hdom & Hunits).
  pose proof (initClientsLoop_result
                (map_to_list (Servers (loadConfig fs path).1)) env
                (fresh (loadConfig fs path).1)) as (Hcalls & Hcfg & _).
  split; [exact Hnone | ].
  split; [exact Hcalls | ].
  split; [exact Hcfg | ].
  split; [exact Hdom | exact Hunits].
Qed.

Lemma loaded_config_initializes_witness :
  let r := initClients Scenario.answering
             (fresh (loadConfig Scenario.fs "config.yaml").1) in
  r.1 = None
  ∧ dom (clients (fwd r.2))
    = dom (Servers (loadConfig Scenario.fs "config.yaml").1).
Proof.
  assert (Hok : (loadConfig Scenario.fs "config.yaml").2 = None)
    by (vm_compute; reflexivity).
  destruct (loaded_config_initializes Scenario.fs "config.yaml"
              Scenario.answering Hok) as (Hnone & _ & _ & Hdom & _).
  split; [exact Hnone | exact Hdom].
Defined.

(** ** forwarder.go: what the decoders return *)

Section DecodedValues.

Context {F : Type} `{Framer F}.

Lemma be16_value (hi lo : byte) : be16 hi lo = 256 * byte_to_Z hi + byte_to_Z lo.
Proof.
  unfold be16.
  pose proof (byte_to_Z_range hi) as Hhi.
  pose proof (byte_to_Z_range lo) as Hlo.
  rewrite Z.shiftl_mul_pow2 by lia. change (2 ^ 8) with 256.
  rewrite <- Z.lxor_lor, <- Z.add_nocarry_lxor; [lia | | ];
    (apply Z.bits_inj'; intros n Hn; rewrite Z.land_spec, Z.bits_0;
     destruct (Z.lt_ge_cases n 8) as [Hlt | Hge];
     [ replace (byte_to_Z hi * 256) with (byte_to_Z hi * 2 ^ 8) by reflexivity;
       rewrite Z.mul_pow2_bits_low by lia; reflexivity
     | rewrite (Z.bits_above_log2 (byte_to_Z lo) n), andb_false_r;
       [reflexivity | lia | ];
       destruct (Z.eq_dec (byte_to_Z lo) 0) as [-> | Hne]; [simpl; lia | ];
       apply Z.lt_le_trans with 8; [ | exact Hge];
       apply Z.log2_lt_pow2; [lia | change (2 ^ 8) with 256; lia] ]).
Qed.

Lemma parseRequest_inl (s : Forwarder) (frame : F) id address quantity :
  parseRequest s frame = inl (id, address, quantity) →
  id = getSlaveID frame
  ∧ address = be16 (at_ (GetData frame) 0) (at_ (GetData frame) 1)
  ∧ quantity = be16 (at_ (GetData frame) 2) (at_ (GetData frame) 3).
Proof.
  unfold parseRequest. intros Hparse.
  destruct (length (GetData frame) <? 4)%nat; [discriminate | ].
  case_bool_decide; [discriminate | ].
  destruct (Servers (config s) !! getSlaveID frame); [ | discriminate].
  inversion Hparse; subst. repeat split.
Qed.

Lemma parseWriteSingleRequest_inl (s : Forwarder) (frame : F) id address value :
  parseWriteSingleRequest s frame = inl (id, address, value) →
  id = getSlaveID frame
  ∧ address = be16 (at_ (GetData frame) 0) (at_ (GetData frame) 1)
  ∧ value = be16 (at_ (GetData frame) 2) (at_ (GetData frame) 3).
Proof.
  unfold parseWriteSingleRequest. intros Hparse.
  destruct (length (GetData frame) <? 4)%nat; [discriminate | ].
  case_bool_decide; [discriminate | ].
  destruct (Servers (config s) !! getSlaveID frame); [ | discriminate].
  inversion Hparse; subst. repeat split.
Qed.

Lemma parseWriteMultipleRequest_inl (s : Forwarder) (frame : F) id address
    quantity data :
  parseWriteMultipleRequest s frame = inl (id, address, quantity, data) →
  id = getSlaveID frame
  ∧ address = be16 (at_ (GetData frame) 0) (at_ (GetData frame) 1)
  ∧ quantity = be16 (at_ (GetData frame) 2) (at_ (GetData frame) 3)
  ∧ data = take (Z.to_nat (byte_to_Z (at_ (GetData frame) 4)))
             (drop 5 (GetData frame))
  ∧ Z.of_nat (length data) = byte_to_Z (at_ (GetData frame) 4).
Proof.
  unfold parseWriteMultipleRequest. intros Hparse.
  destruct (length (GetData frame) <? 6)%nat; [discriminate | ].
  case_bool_decide; [discriminate | ].
  destruct (Servers (config s) !! getSlaveID frame); [ | discriminate].
  destruct (Z.ltb_spec (Z.of_nat (length (GetData frame)))
              (5 + byte_to_Z (at_ (GetData frame) 4))) as [ | Hlen];
    [discriminate | ].
  pose proof (byte_to_Z_range (at_ (GetData frame) 4)) as Hr.
  assert (Hsub : ∀ n : nat, (S (S (S (S (S n)))) - 5)%nat = n)
    by (intros n; lia).
  inversion Hparse; subst. unfold slice. rewrite Hsub.
  repeat split.
  rewrite length_take, length_drop. lia.
Qed.

End DecodedValues.

(** ** forwarder.go: the answers of the handlers *)

Section Answers.

Context {F : Type} `{Framer F}.

Lemma handler_outcome (frame : F) (env : Env) (w : World) (function : byte)
    (h : Handler) :
  In (function, h) registerHandlers →
  let r := h frame env w in
  match decodeError (fwd w) function frame with
  | Some _ => r.1 = ([], IllegalDataAddress) ∧ calls r.2 = calls w
  | None =>
      match clients (fwd w) !! getSlaveID frame with
      | None => r.1 = ([], SlaveDeviceFailure) ∧ calls r.2 = calls w
      | Some client =>
          ∃ call,
            calls r.2 = calls w ++ [(SlaveId (handler client), call)]
            ∧ match backend env (SlaveId (handler client)) call with
              | Err _ => r.1 = ([], SlaveDeviceFailure)
              | Ok _ => r.1.2 = Success
              end
      end
  end.
Proof.
  intros Hin. each_handler Hin; unfold decodeError;
    unfold readCoils, readDiscreteInputs, readHoldingRegisters,
      readInputRegisters, readHandler, writeSingleCoil, writeSingleRegister,
      writeMultipleCoils, writeMultipleRegisters; run_M;
    [ destruct (parseRequest (fwd w) frame)
        as [[[id a] q] | err] eqn:Hp; [apply parseRequest_inl in Hp as (-> & _) | ] ..
    | | | | ];
    [ | | | | | | | |
      destruct (parseWriteSingleRequest (fwd w) frame)
        as [[[id a] q] | err] eqn:Hp;
      [apply parseWriteSingleRequest_inl in Hp as (-> & _) | ]
    | destruct (parseWriteSingleRequest (fwd w) frame)
        as [[[id a] q] | err] eqn:Hp;
      [apply parseWriteSingleRequest_inl in Hp as (-> & _) | ]
    | destruct (parseWriteMultipleRequest (fwd w) frame)
        as [[[[id a] q] d] | err] eqn:Hp;
      [apply parseWriteMultipleRequest_inl in Hp as (-> & _) | ]
    | destruct (parseWriteMultipleRequest (fwd w) frame)
        as [[[[id a] q] d] | err] eqn:Hp;
      [apply parseWriteMultipleRequest_inl in Hp as (-> & _) | ] ];
    try (split; reflexivity);
    unfold getClient;
    (destruct (clients (fwd w) !! getSlaveID frame) as [client | ];
     [ | split; reflexivity]);
    simpl;
    match goal with
    | |- context [backend env ?u ?c] => exists c; destruct (backend env u c)
    end;
    simpl; try (split; reflexivity);
    destruct (_ <? _); split; reflexivity.
Qed.

(** X6: the answer of each of the eight handlers, case by case.  A request
    that does not decode is answered [IllegalDataAddress]; one that decodes
    for a slave without client is answered [SlaveDeviceFailure]; in both
    cases no backend is called and the data is empty.  Otherwise exactly
    one call is made, on the client of the frame's unit identifier, and the
    answer is [SlaveDeviceFailure] with empty data if that call fails and
    [Success] if it returns.  In every case the forwarder is left as it
    was. *)
Theorem handler_answers (frame : F) (env : Env) (w : World) (function : byte)
    (h : Handler) :
  In (function, h) registerHandlers →
  let r := h frame env w in
  match decodeError (fwd w) function frame with
  | Some _ => r.1 = ([], IllegalDataAddress) ∧ calls r.2 = calls w
  | None =>
      match clients (fwd w) !! getSlaveID frame with
      | None => r.1 = ([], SlaveDeviceFailure) ∧ calls r.2 = calls w
      | Some client =>
          ∃ call,
            calls r.2 = calls w ++ [(SlaveId (handler client), call)]
            ∧ match backend env (SlaveId (handler client)) call with
              | Err _ => r.1 = ([], SlaveDeviceFailure)
              | Ok _ => r.1.2 = Success
              end
      end
  end
  ∧ fwd r.2 = fwd w.
Proof.
  intros Hin r. split.
  - exact (handler_outcome frame env w function h Hin).
  - exact (handler_keeps_forwarder frame env w function h Hin).
Qed.

End Answers.

Lemma handler_answers_witness :
  let frame := Scenario.request x02 x06 [x00; x10; x12; x34] in
  (writeSingleRegister frame (Scenario.failing "timeout") Scenario.started).1
  = ([], SlaveDeviceFailure).
Proof.
  intros frame.
  assert (Hin : In (x06, writeSingleRegister (F := TCPFrame)) registerHandlers)
    by (simpl; auto 10).
  pose proof (handler_answers frame (Scenario.failing "timeout")
                Scenario.started x06 writeSingleRegister Hin) as Ha.
  cbv zeta in Ha. destruct Ha as [Ha _].
  assert (Hdec : decodeError (fwd Scenario.started) x06 frame = None)
    by reflexivity.
  rewrite Hdec in Ha.
  destruct (clients (fwd Scenario.started) !! getSlaveID frame) as [client | ];
    [ | destruct Ha as [Ha _]; exact Ha].
  destruct Ha as (call & _ & Ha). exact Ha.
Defined.

Section Forwarding.

Context {F : Type} `{Framer F}.

(** X7: a request of the function codes 1 to 6 that decodes, for a slave
    with a client, is forwarded as it stands: the handler makes the one
    call of its function code, with the big-endian address and the
    big-endian quantity (or value) of the request data, on the client of
    the frame's unit identifier.  If the call fails the answer is
    [SlaveDeviceFailure]; if it returns, the answer is a success whose data
    is, for the two bit reads, the number of result bytes (as a byte)
    followed by the result bytes; for the two register reads, twice the
    number of result bytes (as a byte) followed by the result bytes; for
    the two single writes, the first four bytes of the request data. *)
Theorem request_forwarded (frame : F) (env : Env) (w : World)
    (function : byte) (h : Handler) (client : modbusClient) (call : Call) :
  In (function, h) registerHandlers →
  decodeError (fwd w) function frame = None →
  clients (fwd w) !! getSlaveID frame = Some client →
  requestCall function frame = Some call →
  let r := h frame env w in
  calls r.2 = calls w ++ [(SlaveId (handler client), call)]
  ∧ match backend env (SlaveId (handler client)) call with
    | Err _ => r.1 = ([], SlaveDeviceFailure)
    | Ok results =>
        r.1 = (match function with
               | x01 | x02 =>
                   byte_of_Z (Z.of_nat (length results)) :: results
               | x03 | x04 =>
                   byte_of_Z (Z.of_nat (length results) * 2) :: results
               | _ => take 4 (GetData frame)
               end, Success)
    end.
Proof.
  intros Hin Hdec Hclient Hcall.
  each_handler Hin; unfold decodeError in Hdec; unfold requestCall in Hcall;
    try discriminate Hcall; inversion Hcall; subst call; clear Hcall;
    unfold readCoils, readDiscreteInputs, readHoldingRegisters,
      readInputRegisters, readHandler, writeSingleCoil, writeSingleRegister;
    run_M.
  1-4: destruct (parseRequest (fwd w) frame)
         as [[[id a] q] | err] eqn:Hp; [ | discriminate];
       apply parseRequest_inl in Hp as (-> & -> & ->).
  5-6: destruct (parseWriteSingleRequest (fwd w) frame)
         as [[[id a] q] | err] eqn:Hp; [ | discriminate];
       apply parseWriteSingleRequest_inl in Hp as (-> & -> & ->).
  all: unfold getClient; rewrite Hclient; simpl;
    rewrite !uint16_be16, !be16_value;
    destruct (backend env _ _); split; reflexivity.
Qed.

End Forwarding.

Lemma request_forwarded_witness :
  let frame := Scenario.request x02 x01 [x01; x02; x00; x09] in
  let r := readCoils frame Scenario.answering Scenario.started in
  calls r.2 = [(x02, ReadCoils 258 9)] ∧ r.1 = ([x01; x05], Success).
Proof.
  intros frame r.
  destruct (clients (fwd Scenario.started) !! getSlaveID frame)
    as [client | ] eqn:Hclient; [ | vm_compute in Hclient; discriminate].
  assert (Hunit : SlaveId (handler client) = x02)
    by (vm_compute in Hclient; inversion Hclient; reflexivity).
  assert (Hin : In (x01, readCoils (F := TCPFrame)) registerHandlers)
    by (simpl; auto 10).
  pose proof (request_forwarded frame Scenario.answering Scenario.started
                x01 readCoils client (ReadCoils 258 9) Hin eq_refl Hclient
                eq_refl) as [Hcalls Hanswer].
  rewrite Hunit in Hcalls, Hanswer. simpl in Hanswer.
  split; [exact Hcalls | exact Hanswer].
Defined.

(** ** Bytes and bits *)

Lemma byte_to_of_Z (z : Z) : byte_to_Z (byte_of_Z z) = z mod 256.
Proof.
  unfold byte_to_Z, byte_of_Z.
  pose proof (Z.mod_pos_bound z 256 ltac:(lia)) as Hr.
  destruct (Byte.of_N (Z.to_N (z mod 256))) as [b | ] eqn:Hb.
  - apply Byte.to_of_N in Hb. rewrite Hb. lia.
  - apply Byte.of_N_None_iff in Hb. lia.
Qed.

Lemma byte_of_to_Z (b : byte) : byte_of_Z (byte_to_Z b) = b.
Proof.
  unfold byte_to_Z, byte_of_Z.
  pose proof (Byte.to_N_bounded b) as Hr.
  rewrite Z.mod_small by lia.
  rewrite N2Z.id, Byte.of_to_N. reflexivity.
Qed.

Lemma byte_to_Z_inj (a b : byte) : byte_to_Z a = byte_to_Z b → a = b.
Proof.
  intros Heq. rewrite <- (byte_of_to_Z a), <- (byte_of_to_Z b), Heq.
  reflexivity.
Qed.

Lemma byte_of_Z_mod (z : Z) : byte_of_Z (z mod 256) = byte_of_Z z.
Proof. unfold byte_of_Z. rewrite Z.mod_mod by lia. reflexivity. Qed.

Lemma byte_bits_high (b : byte) (n : Z) :
  8 ≤ n → Z.testbit (byte_to_Z b) n = false.
Proof.
  intros Hn. pose proof (byte_to_Z_range b) as Hr.
  destruct (Z.eq_dec (byte_to_Z b) 0) as [-> | Hne]; [apply Z.bits_0 | ].
  apply Z.bits_above_log2; [lia | ].
  apply Z.lt_le_trans with 8; [ | exact Hn].
  apply Z.log2_lt_pow2; [lia | change (2 ^ 8) with 256; lia].
Qed.

(** Two bytes with the same eight bits are equal. *)
Lemma byte_bits_inj (a b : byte) :
  (∀ n, 0 ≤ n < 8 → Z.testbit (byte_to_Z a) n = Z.testbit (byte_to_Z b) n) →
  a = b.
Proof.
  intros Hbits. apply byte_to_Z_inj, Z.bits_inj'. intros n Hn.
  destruct (Z.lt_ge_cases n 8) as [Hlt | Hge].
  - apply Hbits. lia.
  - rewrite !byte_bits_high by exact Hge. reflexivity.
Qed.

(** [b & (1 << m) != 0] tests bit [m] of [b]. *)
Lemma mask_tests_bit (b : byte) (m : nat) :
  (m < 8)%nat →
  negb (Z.land (byte_to_Z b)
          (byte_to_Z (byte_of_Z (Z.shiftl 1 (Z.of_nat m)))) =? 0)
  = Z.testbit (byte_to_Z b) (Z.of_nat m).
Proof.
  intros Hm. rewrite byte_to_of_Z, Z.shiftl_1_l.
  assert (Hpow : 2 ^ Z.of_nat m < 256).
  { change 256 with (2 ^ 8). apply Z.pow_lt_mono_r; lia. }
  rewrite Z.mod_small by (split; [apply Z.pow_nonneg; lia | exact Hpow]).
  assert (Hland : Z.land (byte_to_Z b) (2 ^ Z.of_nat m)
                  = if Z.testbit (byte_to_Z b) (Z.of_nat m)
                    then 2 ^ Z.of_nat m else 0).
  { apply Z.bits_inj'. intros n Hn.
    rewrite Z.land_spec, Z.pow2_bits_eqb by lia.
    destruct (Z.eqb_spec (Z.of_nat m) n) as [<- | Hne].
    - destruct (Z.testbit (byte_to_Z b) (Z.of_nat m)).
      + rewrite Z.pow2_bits_true by lia. reflexivity.
      + rewrite Z.bits_0. reflexivity.
    - rewrite andb_false_r.
      destruct (Z.testbit (byte_to_Z b) (Z.of_nat m)).
      + rewrite Z.pow2_bits_false by lia. reflexivity.
      + rewrite Z.bits_0. reflexivity. }
  rewrite Hland.
  destruct (Z.testbit (byte_to_Z b) (Z.of_nat m)); [ | reflexivity].
  assert (0 < 2 ^ Z.of_nat m) by (apply Z.pow_pos_nonneg; lia).
  destruct (Z.eqb_spec (2 ^ Z.of_nat m) 0); [lia | reflexivity].
Qed.

(** [b | 1 << m] sets bit [m] of [b] and keeps the others. *)
Lemma set_bit_bits (b : byte) (m : nat) (n : Z) :
  (m < 8)%nat → 0 ≤ n < 8 →
  Z.testbit
    (byte_to_Z (byte_of_Z (Z.lor (byte_to_Z b) (Z.shiftl 1 (Z.of_nat m))))) n
  = Z.testbit (byte_to_Z b) n || (n =? Z.of_nat m).
Proof.
  intros Hm Hn. rewrite byte_to_of_Z. change 256 with (2 ^ 8).
  rewrite Z.mod_pow2_bits_low by lia.
  rewrite Z.lor_spec, Z.shiftl_1_l, Z.pow2_bits_eqb by lia.
  rewrite (Z.eqb_sym n). reflexivity.
Qed.

(** The two bytes of a register are the two bytes it was read from. *)
Lemma register_bytes (hi lo : byte) :
  let value := uint16 (Z.lor (uint16 (Z.shiftl (byte_to_Z hi) 8))
                         (byte_to_Z lo)) in
  byte_of_Z (Z.shiftr value 8) = hi ∧ byte_of_Z value = lo.
Proof.
  intros value.
  pose proof (byte_to_Z_range hi) as Hhi.
  pose proof (byte_to_Z_range lo) as Hlo.
  assert (Hvalue : value = 256 * byte_to_Z hi + byte_to_Z lo).
  { unfold value. unfold uint16 at 2.
    rewrite Z.mod_small
      by (rewrite Z.shiftl_mul_pow2 by lia; change (2 ^ 8) with 256; lia).
    fold (be16 hi lo). rewrite uint16_be16. apply be16_value. }
  rewrite Hvalue. split.
  - rewrite Z.shiftr_div_pow2 by lia. change (2 ^ 8) with 256.
    replace ((256 * byte_to_Z hi + byte_to_Z lo) / 256) with (byte_to_Z hi)
      by (apply Z.div_unique with (byte_to_Z lo); lia).
    apply byte_of_to_Z.
  - rewrite <- byte_of_Z_mod.
    replace ((256 * byte_to_Z hi + byte_to_Z lo) mod 256) with (byte_to_Z lo)
      by (apply Z.mod_unique with (byte_to_Z hi); lia).
    apply byte_of_to_Z.
Qed.

(** ** forwarder.go: the registers of a multiple write *)

Lemma half_bounds (n : nat) : (n / 2 * 2 ≤ n < n / 2 * 2 + 2)%nat.
Proof.
  pose proof (Nat.div_mod_eq n 2) as Heq.
  pose proof (Nat.mod_upper_bound n 2 ltac:(lia)) as Hlt. lia.
Qed.

Lemma decodeRegisters_run (n i : nat) (data : list byte) (registers : list Z) :
  length registers = (i + n)%nat →
  let done := Nat.min n (length data / 2 - i) in
  decodeRegisters n i data registers
  = take i registers ++ List.map (registerAt data) (seq i done)
    ++ drop (i + done) registers.
Proof.
  pose proof (half_bounds (length data)) as Hhalf.
  revert i registers. induction n as [ | n IH]; intros i registers Hlen done.
  - subst done. simpl. rewrite Nat.add_0_r, take_drop. reflexivity.
  - cbn [decodeRegisters].
    destruct (Nat.ltb_spec (i * 2 + 1) (length data)) as [Hin | Hout].
    + rewrite IH by (rewrite length_insert; lia).
      assert (Hdone : done = S (Nat.min n (length data / 2 - S i)))
        by (subst done; lia).
      rewrite Hdone. cbn [seq List.map].
      rewrite (take_S_r _ i (registerAt data i))
        by (apply list_lookup_insert_eq; lia).
      rewrite take_insert_ge by lia.
      rewrite drop_insert_lt by lia.
      rewrite <- app_assoc, Nat.add_succ_r. reflexivity.
    + assert (Hdone : done = 0%nat) by (subst done; lia).
      rewrite Hdone. simpl. rewrite Nat.add_0_r, take_drop. reflexivity.
Qed.

Lemma encodeRegisters_prefix (total : nat) (registers : list Z) :
  (length registers ≤ total)%nat →
  foldl (fun registerBytes '(i, value) =>
           <[(i * 2 + 1)%nat := byte_of_Z value]>
             (<[(i * 2)%nat := byte_of_Z (Z.shiftr value 8)]> registerBytes))
        (replicate (total * 2) x00)
        (imap (fun i value => (i, value)) registers)
  = List.flat_map registerPair registers
    ++ replicate ((total - length registers) * 2) x00.
Proof.
  induction registers as [ | value registers IH] using rev_ind; intros Hlen.
  - simpl. rewrite Nat.sub_0_r. reflexivity.
  - rewrite length_app in Hlen. simpl in Hlen.
    rewrite imap_app, foldl_app, IH by lia. simpl.
    rewrite Nat.add_0_r, List.flat_map_app, length_app. simpl.
    assert (Hflat : length (List.flat_map registerPair registers)
                    = (length registers * 2)%nat).
    { clear. induction registers as [ | v l IHl]; simpl; lia. }
    replace ((total - length registers) * 2)%nat
      with (S (S ((total - (length registers + 1)) * 2))) by lia.
    rewrite !insert_app_r_alt by lia.
    rewrite Hflat.
    replace (length registers * 2 - length registers * 2)%nat with 0%nat by lia.
    replace (length registers * 2 + 1 - length registers * 2)%nat
      with 1%nat by lia.
    simpl. rewrite <- !app_assoc. reflexivity.
Qed.

Lemma register_pairs_of_data (data : list byte) (m : nat) :
  (m * 2 ≤ length data)%nat →
  List.flat_map registerPair (List.map (registerAt data) (seq 0 m))
  = take (m * 2) data.
Proof.
  induction m as [ | m IH]; intros Hlen; [reflexivity | ].
  rewrite seq_S, List.map_app, List.flat_map_app, IH by lia.
  cbn [Nat.add seq List.map List.flat_map app].
  destruct (register_bytes (at_ data (m * 2)) (at_ data (m * 2 + 1)))
    as [Hhi Hlo].
  unfold registerPair, registerAt. rewrite Hhi, Hlo.
  assert (Hat : ∀ i, (i < length data)%nat → data !! i = Some (at_ data i)).
  { intros i Hi. unfold at_.
    destruct (lookup_lt_is_Some_2 data i Hi) as [b Hb].
    rewrite (nth_lookup_Some _ _ x00 _ Hb). exact Hb. }
  replace (S m * 2)%nat with (S (S (m * 2))) by lia.
  rewrite (take_S_r data (S (m * 2)) (at_ data (m * 2 + 1)))
    by (replace (S (m * 2)) with (m * 2 + 1)%nat by lia; apply Hat; lia).
  rewrite (take_S_r data (m * 2) (at_ data (m * 2))) by (apply Hat; lia).
  rewrite <- app_assoc. reflexivity.
Qed.

Lemma register_pairs_of_zeros (k : nat) :
  List.flat_map registerPair (replicate k 0) = replicate (k * 2) x00.
Proof. induction k as [ | k IH]; simpl; [ | rewrite IH]; reflexivity. Qed.

Lemma registers_sent (quantity : nat) (data : list byte) :
  let pairs := Nat.min quantity (length data / 2) in
  encodeRegisters quantity
    (decodeRegisters quantity 0 data (replicate quantity 0))
  = take (pairs * 2) data ++ replicate ((quantity - pairs) * 2) x00.
Proof.
  intros pairs.
  pose proof (half_bounds (length data)) as Hhalf.
  rewrite decodeRegisters_run by (rewrite length_replicate; lia).
  rewrite Nat.sub_0_r. fold pairs. simpl.
  rewrite drop_replicate.
  unfold encodeRegisters.
  pose proof (encodeRegisters_prefix quantity
                (List.map (registerAt data) (seq 0 pairs)
                 ++ replicate (quantity - pairs) 0)) as Henc.
  rewrite length_app, length_map, length_seq, length_replicate in Henc.
  rewrite Henc by lia.
  replace (quantity - (pairs + (quantity - pairs)))%nat with 0%nat by lia.
  simpl. rewrite app_nil_r, List.flat_map_app.
  rewrite register_pairs_of_data by (subst pairs; lia).
  rewrite register_pairs_of_zeros. reflexivity.
Qed.

Lemma registers_sent_complete (quantity : nat) (data : list byte) :
  (quantity * 2 ≤ length data)%nat →
  encodeRegisters quantity
    (decodeRegisters quantity 0 data (replicate quantity 0))
  = take (quantity * 2) data.
Proof.
  intros Hlen. pose proof (half_bounds (length data)) as Hhalf.
  rewrite registers_sent.
  replace (Nat.min quantity (length data / 2)) with quantity by lia.
  rewrite Nat.sub_diag. simpl. apply app_nil_r.
Qed.

(** X8: the bytes [writeMultipleRegisters] sends for a quantity and the
    data of a request are the data again: its first [2 * quantity] bytes
    when it has that many; otherwise its complete byte pairs (an odd last
    byte is dropped) followed by zero bytes up to [2 * quantity] bytes. *)
Theorem registers_sent_are_the_data (quantity : nat) (data : list byte) :
  let sent :=
    encodeRegisters quantity
      (decodeRegisters quantity 0 data (replicate quantity 0)) in
  let pairs := Nat.min quantity (length data / 2) in
  sent = take (pairs * 2) data ++ replicate ((quantity - pairs) * 2) x00
  ∧ length sent = (quantity * 2)%nat
  ∧ ((quantity * 2 ≤ length data)%nat → sent = take (quantity * 2) data).
Proof.
  intros sent pairs.
  pose proof (half_bounds (length data)) as Hhalf.
  split; [apply registers_sent | split].
  - subst sent. rewrite registers_sent.
    rewrite length_app, length_take, length_replicate. lia.
  - apply registers_sent_complete.
Qed.

Lemma registers_sent_are_the_data_witness :
  encodeRegisters 2 (decodeRegisters 2 0 [x12; x34; xab; xcd; xee]
                       (replicate 2 0))
  = [x12; x34; xab; xcd].
Proof.
  destruct (registers_sent_are_the_data 2 [x12; x34; xab; xcd; xee])
    as (_ & _ & Hfull).
  apply Hfull. simpl. lia.
Defined.

(** ** forwarder.go: the coils of a multiple write *)

Lemma eighth_bounds (n : nat) :
  (n / 8 * 8 + n mod 8 = n ∧ n mod 8 < 8)%nat.
Proof.
  pose proof (Nat.div_mod_eq n 8) as Heq.
  pose proof (Nat.mod_upper_bound n 8 ltac:(lia)) as Hlt. lia.
Qed.

Lemma eighth_of_sum (j b : nat) :
  (b < 8)%nat → ((j * 8 + b) / 8 = j ∧ (j * 8 + b) mod 8 = b)%nat.
Proof.
  intros Hb. pose proof (eighth_bounds (j * 8 + b)) as [Heq Hlt].
  assert (Hj : ((j * 8 + b) / 8 = j)%nat) by nia.
  split; [exact Hj | ]. rewrite Hj in Heq. lia.
Qed.

Lemma at_lookup (l : list byte) (i : nat) (x : byte) :
  l !! i = Some x → at_ l i = x.
Proof. apply nth_lookup_Some. Qed.

Lemma unpackCoils_prefix (quantity : nat) (data : list byte) (n : nat) :
  (n ≤ quantity)%nat →
  let coils :=
    foldl (fun coils i =>
             let byteIndex := (i / 8)%nat in
             let bitIndex := (i mod 8)%nat in
             if (byteIndex <? length data)%nat then
               <[i := negb (Z.land (byte_to_Z (at_ data byteIndex))
                              (byte_to_Z (byte_of_Z (Z.shiftl 1 (Z.of_nat bitIndex))))
                            =? 0)]> coils
             else coils)
          (replicate quantity false) (seq 0 n) in
  length coils = quantity
  ∧ ∀ k, (k < quantity)%nat →
         coils !! k = Some (if (k <? n)%nat then coilAt data k else false).
Proof.
  induction n as [ | n IH]; intros Hn coils.
  - subst coils. simpl. split; [apply length_replicate | ].
    intros k Hk. apply lookup_replicate_2. exact Hk.
  - destruct (IH ltac:(lia)) as [Hlen Hlook].
    subst coils. rewrite seq_S, foldl_app. cbn [foldl Nat.add].
    set (before := foldl _ (replicate quantity false) (seq 0 n)) in *.
    pose proof (eighth_bounds n) as [_ Hbit].
    destruct (Nat.ltb_spec (n / 8) (length data)) as [Hin | Hout].
    + rewrite mask_tests_bit by exact Hbit.
      split; [rewrite length_insert; exact Hlen | ].
      intros k Hk. destruct (decide (k = n)) as [-> | Hne].
      * rewrite list_lookup_insert_eq by lia.
        destruct (Nat.ltb_spec n (S n)) as [_ | ?]; [ | lia].
        unfold coilAt.
        destruct (Nat.ltb_spec (n / 8) (length data)); [reflexivity | lia].
      * rewrite list_lookup_insert_ne by congruence.
        rewrite Hlook by exact Hk.
        destruct (Nat.ltb_spec k n), (Nat.ltb_spec k (S n));
          try reflexivity; lia.
    + split; [exact Hlen | ].
      intros k Hk. rewrite Hlook by exact Hk.
      destruct (Nat.ltb_spec k n), (Nat.ltb_spec k (S n));
        try reflexivity; try lia.
      assert (k = n) by lia. subst k. unfold coilAt.
      destruct (Nat.ltb_spec (n / 8) (length data)); [lia | reflexivity].
Qed.

Lemma unpackCoils_nth (quantity : nat) (data : list byte) (k : nat) :
  nth k (unpackCoils quantity data) false
  = if (k <? quantity)%nat then coilAt data k else false.
Proof.
  destruct (unpackCoils_prefix quantity data quantity (Nat.le_refl _))
    as [Hlen Hlook].
  unfold unpackCoils.
  destruct (Nat.ltb_spec k quantity) as [Hk | Hk].
  - rewrite (nth_lookup_Some _ _ _ _ (Hlook k Hk)).
    destruct (Nat.ltb_spec k quantity); [reflexivity | lia].
  - apply nth_overflow.
    etransitivity; [ | exact Hk]. apply Nat.eq_le_incl, Hlen.
Qed.

Lemma packCoils_prefix (quantity : nat) (coils : list bool) (n : nat) :
  (n ≤ quantity)%nat →
  let coilBytes :=
    foldl (fun coilBytes i =>
             if nth i coils false then
               let byteIndex := (i / 8)%nat in
               let bitIndex := (i mod 8)%nat in
               <[byteIndex :=
                   byte_of_Z (Z.lor (byte_to_Z (at_ coilBytes byteIndex))
                                (Z.shiftl 1 (Z.of_nat bitIndex)))]> coilBytes
             else coilBytes)
          (replicate ((quantity + 7) / 8) x00) (seq 0 n) in
  length coilBytes = ((quantity + 7) / 8)%nat
  ∧ ∀ j b, (j < (quantity + 7) / 8)%nat → (b < 8)%nat →
           Z.testbit (byte_to_Z (at_ coilBytes j)) (Z.of_nat b)
           = (j * 8 + b <? n)%nat && nth (j * 8 + b) coils false.
Proof.
  induction n as [ | n IH]; intros Hn coilBytes.
  - subst coilBytes. simpl. split; [apply length_replicate | ].
    intros j b Hj Hb.
    rewrite (at_lookup _ _ x00) by (apply lookup_replicate_2; exact Hj).
    apply Z.bits_0.
  - destruct (IH ltac:(lia)) as [Hlen Hbits].
    subst coilBytes. rewrite seq_S, foldl_app. cbn [foldl Nat.add].
    set (before := foldl _ (replicate ((quantity + 7) / 8) x00) (seq 0 n)) in *.
    pose proof (eighth_bounds n) as [Hsplit Hbit].
    pose proof (eighth_bounds (quantity + 7)) as [Hq Hqbit].
    assert (Hbyte : (n / 8 < (quantity + 7) / 8)%nat) by lia.
    assert (Hinside : (n / 8 < length before)%nat)
      by (rewrite Hlen; exact Hbyte).
    destruct (nth n coils false) eqn:Hcoil.
    + split; [rewrite length_insert; exact Hlen | ].
      intros j b Hj Hb.
      destruct (decide (j = (n / 8)%nat)) as [-> | Hne].
      * rewrite (at_lookup _ _ _ (list_lookup_insert_eq _ _ _ Hinside)).
        rewrite set_bit_bits by lia.
        rewrite Hbits by assumption.
        destruct (decide (b = (n mod 8)%nat)) as [-> | Hb'].
        -- rewrite Hsplit, Hcoil, Z.eqb_refl, orb_true_r.
           destruct (Nat.ltb_spec n (S n)); [reflexivity | lia].
        -- destruct (Z.eqb_spec (Z.of_nat b) (Z.of_nat (n mod 8))); [lia | ].
           rewrite orb_false_r.
           destruct (Nat.ltb_spec (n / 8 * 8 + b) n),
             (Nat.ltb_spec (n / 8 * 8 + b) (S n)); try reflexivity; lia.
      * match goal with
        | |- context [at_ (<[?i := ?x]> before) j] =>
            assert (Hat : at_ (<[i := x]> before) j = at_ before j)
              by (unfold at_;
                  rewrite !nth_lookup, list_lookup_insert_ne by congruence;
                  reflexivity);
            rewrite Hat
        end.
        rewrite Hbits by assumption.
        destruct (Nat.ltb_spec (j * 8 + b) n),
          (Nat.ltb_spec (j * 8 + b) (S n)); try reflexivity; lia.
    + split; [exact Hlen | ].
      intros j b Hj Hb. rewrite Hbits by assumption.
      destruct (Nat.ltb_spec (j * 8 + b) n),
        (Nat.ltb_spec (j * 8 + b) (S n)); try reflexivity; try lia.
      assert (Heq : (j * 8 + b = n)%nat) by lia.
      rewrite Heq, Hcoil. reflexivity.
Qed.

Lemma coils_sent_bits (quantity : nat) (data : list byte) :
  let sent := packCoils quantity (unpackCoils quantity data) in
  length sent = ((quantity + 7) / 8)%nat
  ∧ ∀ j b, (j < (quantity + 7) / 8)%nat → (b < 8)%nat →
      Z.testbit (byte_to_Z (at_ sent j)) (Z.of_nat b)
      = (j * 8 + b <? quantity)%nat && (j <? length data)%nat
        && Z.testbit (byte_to_Z (at_ data j)) (Z.of_nat b).
Proof.
  intros sent.
  destruct (packCoils_prefix quantity (unpackCoils quantity data) quantity
              (Nat.le_refl _)) as [Hlen Hbits].
  fold (packCoils quantity (unpackCoils quantity data)) in Hlen, Hbits.
  fold sent in Hlen, Hbits.
  split; [exact Hlen | ].
  intros j b Hj Hb. rewrite Hbits by assumption.
  rewrite unpackCoils_nth. unfold coilAt.
  destruct (eighth_of_sum j b Hb) as [-> ->].
  destruct (j * 8 + b <? quantity)%nat; simpl; [ | reflexivity].
  destruct (j <? length data)%nat; reflexivity.
Qed.

Lemma coils_sent_complete (quantity : nat) (data : list byte) :
  length data = ((quantity + 7) / 8)%nat →
  (∀ j b, (j < length data)%nat → (b < 8)%nat →
          (quantity ≤ j * 8 + b)%nat →
          Z.testbit (byte_to_Z (at_ data j)) (Z.of_nat b) = false) →
  packCoils quantity (unpackCoils quantity data) = data.
Proof.
  intros Hdata Hunused.
  destruct (coils_sent_bits quantity data) as [Hlen Hsent].
  apply (nth_ext _ _ x00 x00); [exact (eq_trans Hlen (eq_sym Hdata)) | ].
  intros j Hj.
  assert (Hj' : (j < (quantity + 7) / 8)%nat)
    by (apply Nat.lt_le_trans with (1 := Hj), Nat.eq_le_incl, Hlen).
  apply byte_bits_inj. intros n Hn.
  rewrite <- (Z2Nat.id n) by lia.
  fold (at_ (packCoils quantity (unpackCoils quantity data)) j).
  fold (at_ data j).
  rewrite Hsent by (try assumption; lia).
  destruct (Nat.ltb_spec j (length data)) as [_ | ?]; [ | lia].
  destruct (Nat.ltb_spec (j * 8 + Z.to_nat n) quantity) as [_ | Hpast];
    simpl; [reflexivity | ].
  symmetry. apply Hunused; lia.
Qed.

(** X9: the bytes [writeMultipleCoils] sends for a quantity and the data
    of a request.  There are [(quantity + 7) / 8] of them; bit [b] of byte
    [j] is bit [b] of byte [j] of the data when coil [8 * j + b] is below
    the quantity and the data has a byte [j], and is 0 otherwise.  So data
    of exactly [(quantity + 7) / 8] bytes whose bits past the quantity are
    0 is sent unchanged. *)
Theorem coils_sent_are_the_data (quantity : nat) (data : list byte) :
  let sent := packCoils quantity (unpackCoils quantity data) in
  length sent = ((quantity + 7) / 8)%nat
  ∧ (∀ j b, (j < (quantity + 7) / 8)%nat → (b < 8)%nat →
       Z.testbit (byte_to_Z (at_ sent j)) (Z.of_nat b)
       = (j * 8 + b <? quantity)%nat && (j <? length data)%nat
         && Z.testbit (byte_to_Z (at_ data j)) (Z.of_nat b))
  ∧ (length data = ((quantity + 7) / 8)%nat →
     (∀ j b, (j < length data)%nat → (b < 8)%nat →
             (quantity ≤ j * 8 + b)%nat →
             Z.testbit (byte_to_Z (at_ data j)) (Z.of_nat b) = false) →
     sent = data).
Proof.
  intros sent.
  destruct (coils_sent_bits quantity data) as [Hlen Hbits].
  split; [exact Hlen | split; [exact Hbits | ]].
  apply coils_sent_complete.
Qed.

Lemma coils_sent_are_the_data_witness :
  packCoils 10 (unpackCoils 10 [xa5; x03]) = [xa5; x03].
Proof.
  destruct (coils_sent_are_the_data 10 [xa5; x03]) as (_ & _ & Hsame).
  apply Hsame; [reflexivity | ].
  intros j b Hj Hb Hpast.
  destruct j as [ | [ | j]]; [simpl in Hpast; lia | | simpl in Hj; lia].
  do 8 (destruct b as [ | b]; [try reflexivity; simpl in Hpast; lia | ]).
  lia.
Defined.

(** X10: a multiple write whose data is complete is forwarded unchanged.
    For a request that decodes to a slave with a client,
    [writeMultipleRegisters] calls the client once with the address, the
    quantity and the data bytes of the request when these are exactly
    [2 * quantity] bytes; [writeMultipleCoils] does so when they are
    exactly [(quantity + 7) / 8] bytes with no bit set past the
    quantity. *)
Theorem multiple_write_forwarded {F : Type} `{Framer F} (frame : F)
    (env : Env) (w : World) (id : byte) (address quantity : Z)
    (data : list byte) (client : modbusClient) :
  parseWriteMultipleRequest (fwd w) frame = inl (id, address, quantity, data) →
  getClient (fwd w) id = inl client →
  (Z.of_nat (length data) = 2 * quantity →
   calls (writeMultipleRegisters frame env w).2
   = calls w ++ [(SlaveId (handler client),
                  WriteMultipleRegisters address quantity data)])
  ∧ (length data = ((Z.to_nat quantity + 7) / 8)%nat →
     (∀ j b, (j < length data)%nat → (b < 8)%nat →
             (Z.to_nat quantity ≤ j * 8 + b)%nat →
             Z.testbit (byte_to_Z (at_ data j)) (Z.of_nat b) = false) →
     calls (writeMultipleCoils frame env w).2
     = calls w ++ [(SlaveId (handler client),
                    WriteMultipleCoils address quantity data)]).
Proof.
  intros Hparse Hclient.
  pose proof (parseWriteMultipleRequest_range _ _ _ _ _ _ Hparse) as Hq.
  pose proof (parseWriteMultipleRequest_inl _ _ _ _ _ _ Hparse)
    as (_ & Ha & _).
  assert (Hua : uint16 address = address)
    by (rewrite Ha; apply uint16_be16).
  assert (Huq : uint16 quantity = quantity)
    by (unfold uint16; apply Z.mod_small; exact Hq).
  split.
  - intros Hlen.
    pose proof (registers_sent_complete (Z.to_nat quantity) data) as Hfull.
    unfold writeMultipleRegisters. run_M.
    rewrite Hparse, Hclient. simpl. rewrite Hua, Huq, Hfull by lia.
    rewrite take_ge by lia.
    destruct (backend env _ _); simpl; [ | reflexivity].
    destruct (_ <? _); reflexivity.
  - intros Hlen Hunused.
    pose proof (coils_sent_complete (Z.to_nat quantity) data) as Hsame.
    unfold writeMultipleCoils. run_M.
    rewrite Hparse, Hclient. simpl. rewrite Hua, Huq, Hsame by assumption.
    destruct (backend env _ _); simpl; [ | reflexivity].
    destruct (_ <? _); reflexivity.
Qed.

Lemma multiple_write_forwarded_witness :
  let registers :=
    Scenario.request x01 x10 [x00; x10; x00; x02; x04; x12; x34; xab; xcd] in
  let coils :=
    Scenario.request x02 x0f [x00; x20; x00; x0a; x02; xa5; x03] in
  calls (writeMultipleRegisters registers Scenario.answering
           Scenario.started).2
  = [(x01, WriteMultipleRegisters 16 2 [x12; x34; xab; xcd])]
  ∧ calls (writeMultipleCoils coils Scenario.answering Scenario.started).2
    = [(x02, WriteMultipleCoils 32 10 [xa5; x03])].
Proof.
  intros registers coils.
  assert (Hclients : ∀ id, id = x01 ∨ id = x02 →
            ∃ client, getClient (fwd Scenario.started) id = inl client
                      ∧ SlaveId (handler client) = id).
  { intros id [-> | ->]; eexists; split; vm_compute; reflexivity. }
  split.
  - destruct (Hclients x01 (or_introl eq_refl)) as (client & Hclient & Hunit).
    assert (Hparse : parseWriteMultipleRequest (fwd Scenario.started) registers
                     = inl (x01, 16, 2, [x12; x34; xab; xcd]))
      by (vm_compute; reflexivity).
    destruct (multiple_write_forwarded registers Scenario.answering
                Scenario.started x01 16 2 [x12; x34; xab; xcd] client
                Hparse Hclient) as [Hregisters _].
    rewrite Hunit in Hregisters. apply Hregisters. reflexivity.
  - destruct (Hclients x02 (or_intror eq_refl)) as (client & Hclient & Hunit).
    assert (Hparse : parseWriteMultipleRequest (fwd Scenario.started) coils
                     = inl (x02, 32, 10, [xa5; x03]))
      by (vm_compute; reflexivity).
    destruct (multiple_write_forwarded coils Scenario.answering
                Scenario.started x02 32 10 [xa5; x03] client
                Hparse Hclient) as [_ Hcoils].
    rewrite Hunit in Hcoils. apply Hcoils; [reflexivity | ].
    intros j b Hj Hb Hpast.
    destruct j as [ | [ | j]]; [simpl in Hpast; lia | | simpl in Hj; lia].
    do 8 (destruct b as [ | b]; [try reflexivity; simpl in Hpast; lia | ]).
    lia.
Defined.

(** ** forwarder.go: shutdown *)

Lemma foldl_insert_lookup (f : modbusClient → modbusClient)
    (entries : list (byte * modbusClient)) (m : gmap byte modbusClient)
    (id : byte) :
  NoDup entries.*1 →
  foldl (fun m p => <[p.1 := f p.2]> m) m entries !! id
  = match list_find (fun p => p.1 = id) entries with
    | Some (_, p) => Some (f p.2)
    | None => m !! id
    end.
Proof.
  revert m. induction entries as [ | [id' c] rest IH]; intros m Hnd.
  - reflexivity.
  - simpl in Hnd. apply NoDup_cons in Hnd as [Hfresh Hnd].
    simpl. rewrite IH by exact Hnd.
    destruct (decide (id' = id)) as [-> | Hne]; simpl.
    + destruct (list_find (fun p => p.1 = id) rest) as [[i p] | ] eqn:Hfind.
      * exfalso. apply list_find_Some in Hfind as (Hl & Hp & _).
        apply Hfresh. rewrite <- Hp.
        apply list_elem_of_fmap_2, list_elem_of_lookup. eauto.
      * simpl. apply lookup_insert_eq.
    + destruct (list_find (fun p => p.1 = id) rest) as [[i p] | ]; simpl;
        [reflexivity | ].
      apply lookup_insert_ne. exact Hne.
Qed.

Lemma foldl_insert_map_to_list (f : modbusClient → modbusClient)
    (m : gmap byte modbusClient) :
  foldl (fun m p => <[p.1 := f p.2]> m) m (map_to_list m) = f <$> m.
Proof.
  apply map_eq. intros i.
  rewrite foldl_insert_lookup by apply NoDup_fst_map_to_list.
  rewrite lookup_fmap.
  destruct (list_find (fun p => p.1 = i) (map_to_list m))
    as [[j [i' c]] | ] eqn:Hfind.
  - apply list_find_Some in Hfind as (Hl & Hp & _). simpl in Hp. subst i'.
    apply list_elem_of_lookup_2, elem_of_map_to_list in Hl.
    rewrite Hl. reflexivity.
  - destruct (m !! i) as [c | ] eqn:Hc; [ | reflexivity].
    exfalso. apply elem_of_map_to_list in Hc.
    apply list_find_None in Hfind.
    rewrite Forall_forall in Hfind. apply (Hfind _ Hc). reflexivity.
Qed.

Lemma forRange_close (entries : list (byte * modbusClient)) (env : Env)
    (w : World) :
  (forRange entries
     (fun slaveID client =>
        storeClient slaveID (set_handler (Close (handler client)) client))
     env w).2
  = {| fwd := set_clients
                (foldl (fun m p => <[p.1 := closeClient p.2]> m)
                   (clients (fwd w)) entries)
                (fwd w);
       logs := logs w;
       calls := calls w |}.
Proof.
  revert w. induction entries as [ | [id c] rest IH]; intros w.
  - simpl. destruct w as [[cfg cs] lg cl]; reflexivity.
  - change (forRange ((id, c) :: rest) ?body env w)
      with (let '(a, w') := body id c env w in forRange rest body env w').
    unfold storeClient at 1. cbv beta iota zeta. rewrite IH. reflexivity.
Qed.

Lemma Stop_run (env : Env) (w : World) :
  (Stop env w).2
  = {| fwd := set_clients (closeClient <$> clients (fwd w)) (fwd w);
       logs := logs w ++ [LogStopped];
       calls := calls w |}.
Proof.
  unfold Stop. run_M. simpl.
  pose proof (forRange_close (map_to_list (clients (fwd w))) env w) as Hclose.
  destruct (forRange (map_to_list (clients (fwd w))) _ env w) as [u w'].
  simpl in Hclose. subst w'. simpl.
  rewrite foldl_insert_map_to_list. reflexivity.
Qed.

(** X11: [Stop] closes the handler of every client and of no other slave,
    calls no backend, and keeps what the clients recorded: after it every
    client is closed, addresses the slave it did, and has the [lastError]
    and [lastConn] it had; the slaves with a client and the configuration
    are the same; one line is logged. *)
Theorem Stop_closes_every_client (env : Env) (w : World) :
  let w' := (Stop env w).2 in
  calls w' = calls w
  ∧ logs w' = logs w ++ [LogStopped]
  ∧ config (fwd w') = config (fwd w)
  ∧ dom (clients (fwd w')) = dom (clients (fwd w))
  ∧ (∀ id client, clients (fwd w') !! id = Some client →
       Closed (handler client) = true)
  ∧ (∀ id client, clients (fwd w) !! id = Some client →
       ∃ client', clients (fwd w') !! id = Some client'
                  ∧ SlaveId (handler client') = SlaveId (handler client)
                  ∧ lastError client' = lastError client
                  ∧ lastConn client' = lastConn client).
Proof.
  intros w'. subst w'. rewrite Stop_run. simpl.
  repeat split.
  - apply dom_fmap_L.
  - intros id client Hl. rewrite lookup_fmap in Hl.
    destruct (clients (fwd w) !! id) as [c | ]; [ | discriminate].
    inversion Hl. reflexivity.
  - intros id client Hl. exists (closeClient client).
    rewrite lookup_fmap, Hl. repeat split.
Qed.

(** ** forwarder.go: the passes of the health monitor *)

Lemma transitionLines_about (id : byte) (previous current : option string)
    (line : LogLine) :
  In line (transitionLines id previous current) → monitorLineOf id line = true.
Proof.
  unfold transitionLines.
  destruct previous as [last | ], current as [err | ];
    try destruct (decide (last = err)); simpl; intros Hin;
    try contradiction; destruct Hin as [<- | []]; simpl;
    apply bool_decide_eq_true_2; reflexivity.
Qed.

Lemma transitionLines_at_most_one (id : byte) (previous current : option string) :
  (length (transitionLines id previous current) ≤ 1)%nat.
Proof.
  unfold transitionLines.
  destruct previous as [last | ], current as [err | ];
    try destruct (decide (last = err)); simpl; lia.
Qed.

Lemma filter_pass_lines_absent (env : Env)
    (entries : list (byte * modbusClient)) (id : byte) :
  ¬ In id entries.*1 →
  List.filter (monitorLineOf id)
    (List.flat_map
       (fun p => transitionLines p.1 (lastError p.2) (probeOutcome env p.2))
       entries)
  = [].
Proof.
  induction entries as [ | [id' c'] rest IH]; intros Hnot; [reflexivity | ].
  simpl. rewrite List.filter_app, transitionLines_other.
  - apply IH. intros Hin. apply Hnot. right. exact Hin.
  - intros ->. apply Hnot. left. reflexivity.
Qed.

(** X12: a pass of [checkConnections] probes every client exactly once,
    with a read of one holding register at address 1, and does nothing
    else to the outside.  The calls it adds are, along an enumeration of
    the clients without repetition, one [ReadHoldingRegisters 1 1] per
    client on that client's unit.  The lines it writes about a slave are
    those of the change from the client's [lastError] to the outcome of its
    probe, at most one, and none for a slave without client; every line it
    writes is such a line about a slave with a client.  It keeps the
    configuration, the slaves that have a client and every handler. *)
Theorem checkConnections_probes_once (env : Env) (w : World) :
  let w' := (checkConnections env w).2 in
  (∃ entries,
     NoDup entries.*1
     ∧ (∀ id client,
          In (id, client) entries ↔ clients (fwd w) !! id = Some client)
     ∧ calls w'
       = calls w
         ++ List.map
              (fun p => (SlaveId (handler p.2), ReadHoldingRegisters 1 1))
              entries)
  ∧ (∀ id,
       List.filter (monitorLineOf id) (emitted w w')
       = match clients (fwd w) !! id with
         | Some client =>
             transitionLines id (lastError client) (probeOutcome env client)
         | None => []
         end)
  ∧ (∀ id,
       (length (List.filter (monitorLineOf id) (emitted w w')) ≤ 1)%nat)
  ∧ (∀ line,
       In line (emitted w w') →
       ∃ id client,
         clients (fwd w) !! id = Some client ∧ monitorLineOf id line = true)
  ∧ config (fwd w') = config (fwd w)
  ∧ dom (clients (fwd w')) = dom (clients (fwd w))
  ∧ (∀ id client client',
       clients (fwd w) !! id = Some client →
       clients (fwd w') !! id = Some client' →
       handler client' = handler client).
Proof.
  intros w'.
  assert (Hlines : ∀ id,
            List.filter (monitorLineOf id) (emitted w w')
            = match clients (fwd w) !! id with
              | Some client =>
                  transitionLines id (lastError client)
                    (probeOutcome env client)
              | None => []
              end).
  { intros id. destruct (clients (fwd w) !! id) as [client | ] eqn:Hc.
    - apply checkConnections_lines, Hc.
    - subst w'. unfold emitted. rewrite checkConnections_spec. simpl.
      rewrite drop_app_length. apply filter_pass_lines_absent.
      intros Hin. apply list_elem_of_In, list_elem_of_fmap in Hin
        as ([id' client] & -> & Hin).
      apply elem_of_map_to_list in Hin. simpl in Hc. congruence. }
  split; [ | split; [exact Hlines | split; [ | split]]].
  - exists (map_to_list (clients (fwd w))).
    split; [apply NoDup_fst_map_to_list | ].
    split.
    + intros id client. rewrite <- list_elem_of_In. apply elem_of_map_to_list.
    + subst w'. rewrite checkConnections_spec. reflexivity.
  - intros id. rewrite Hlines.
    destruct (clients (fwd w) !! id);
      [apply transitionLines_at_most_one | simpl; lia].
  - intros line Hin. subst w'. unfold emitted in Hin.
    rewrite checkConnections_spec in Hin. simpl in Hin.
    rewrite drop_app_length in Hin.
    apply in_flat_map in Hin as ([id client] & Hentry & Hline).
    exists id, client.
    split; [apply elem_of_map_to_list, list_elem_of_In, Hentry | ].
    exact (transitionLines_about _ _ _ _ Hline).
  - subst w'. rewrite checkConnections_spec. simpl.
    split; [reflexivity | split; [apply dom_fmap_L | ]].
    intros id client client' Hl Hl'. rewrite lookup_fmap, Hl in Hl'.
    inversion Hl'. apply probed_handler.
Qed.

Lemma foldl_probed_lastConn (ticks : list Env) (c : modbusClient) :
  lastConn (foldl (fun c env => probed env c) c ticks)
  = match last (List.filter (probeSucceeds c) ticks) with
    | Some env => now env
    | None => lastConn c
    end.
Proof.
  induction ticks as [ | env rest IH] using rev_ind; [reflexivity | ].
  rewrite foldl_app, List.filter_app. simpl.
  rewrite probed_lastConn. unfold probeSucceeds at 2, probeOutcome.
  rewrite foldl_probed_handler.
  destruct (outcome (backend env (SlaveId (handler c)) probeCall)).
  - rewrite app_nil_r. exact IH.
  - rewrite last_snoc. reflexivity.
Qed.

(** X13: over any sequence of ticks of the health monitor, the slaves
    with a client stay the same, and the [lastConn] of a client is the time
    of the last tick whose probe of it succeeded, or its initial value when
    none has. *)
Theorem lastConn_is_last_successful_probe (ticks : list Env) (w : World)
    (id : byte) (c : modbusClient) :
  clients (fwd w) !! id = Some c →
  let w' := monitorConnections ticks w in
  dom (clients (fwd w')) = dom (clients (fwd w))
  ∧ ∃ c', clients (fwd w') !! id = Some c'
          ∧ handler c' = handler c
          ∧ lastConn c'
            = match last (List.filter (probeSucceeds c) ticks) with
              | Some env => now env
              | None => lastConn c
              end.
Proof.
  intros Hc w'. split.
  - subst w'. clear Hc. revert w.
    induction ticks as [ | env rest IH]; intros w; [reflexivity | ].
    simpl. rewrite IH, checkConnections_spec. simpl. apply dom_fmap_L.
  - exists (foldl (fun c env => probed env c) c ticks).
    split; [apply monitorConnections_client, Hc | ].
    split; [apply foldl_probed_handler | apply foldl_probed_lastConn].
Qed.

Lemma lastConn_is_last_successful_probe_witness :
  let ticks := [Scenario.failing "timeout"; Scenario.answering;
                Scenario.failing "timeout"] in
  ∃ c', clients (fwd (monitorConnections ticks Scenario.started)) !! x02
        = Some c'
        ∧ lastConn c' = 1700000000.
Proof.
  intros ticks.
  destruct (clients (fwd Scenario.started) !! x02) as [c | ] eqn:Hc;
    [ | vm_compute in Hc; discriminate].
  destruct (lastConn_is_last_successful_probe ticks Scenario.started x02 c Hc)
    as (_ & c' & Hl & _ & Ht).
  exists c'. split; [exact Hl | ].
  rewrite Ht. vm_compute in Hc. inversion Hc. reflexivity.
Defined.

(** ** A started gateway *)

Section Started.

Context {F : Type} `{Framer F}.

Lemma decoded_is_configured (s : Forwarder) (frame : F) (function : byte)
    (h : Handler) :
  In (function, h) registerHandlers →
  decodeError s function frame = None →
  ∃ server, Servers (config s) !! getSlaveID frame = Some server.
Proof.
  intros Hin Hdec.
  destruct (Servers (config s) !! getSlaveID frame) as [server | ] eqn:Hs;
    [eauto | ].
  destruct (decodeError_unit s frame function h (or_intror Hs) Hin)
    as [err Herr].
  rewrite Hdec in Herr. discriminate.
Qed.

(** X14: on a gateway started from a loaded configuration ([loadConfig],
    then [initClients] on a new forwarder), a request that decodes is
    always handed to a client, and the right one: the handler makes one
    client call, on the client whose handler carries the unit identifier of
    the frame; the answer is [SlaveDeviceFailure] if that call returns an
    error and [Success] if it returns a result.  A request that does not
    decode is answered [IllegalDataAddress] without a client call.  The
    branch of a missing client is never taken. *)
Theorem started_gateway_routes (fs : string → FileResult) (path : string)
    (env0 env : Env) (frame : F) (function : byte) (h : Handler) :
  (loadConfig fs path).2 = None →
  In (function, h) registerHandlers →
  let w := (initClients env0 (fresh (loadConfig fs path).1)).2 in
  let r := h frame env w in
  match decodeError (fwd w) function frame with
  | Some _ => r.1 = ([], IllegalDataAddress) ∧ calls r.2 = calls w
  | None =>
      ∃ call,
        calls r.2 = calls w ++ [(getSlaveID frame, call)]
        ∧ match backend env (getSlaveID frame) call with
          | Err _ => r.1 = ([], SlaveDeviceFailure)
          | Ok _ => r.1.2 = Success
          end
  end.
Proof.
  intros Hok Hin w r.
  destruct (loaded_clients fs path env0 Hok) as (_ & Hdom & Hunits).
  pose proof (initClientsLoop_result
                (map_to_list (Servers (loadConfig fs path).1)) env0
                (fresh (loadConfig fs path).1)) as (_ & Hcfg & _).
  fold w in Hdom, Hunits. change (config (fwd w) = (loadConfig fs path).1) in Hcfg.
  pose proof (handler_outcome frame env w function h Hin) as Hout.
  fold r in Hout.
  destruct (decodeError (fwd w) function frame) as [err | ] eqn:Hdec;
    [exact Hout | ].
  destruct (decoded_is_configured (fwd w) frame function h Hin Hdec)
    as [server Hs].
  rewrite Hcfg in Hs.
  assert (Hin' : getSlaveID frame ∈ dom (clients (fwd w))).
  { rewrite Hdom. apply elem_of_dom. eauto. }
  apply elem_of_dom in Hin' as [client Hclient].
  rewrite Hclient in Hout.
  destruct (Hunits _ _ Hclient) as [Hunit _].
  rewrite Hunit in Hout. exact Hout.
Qed.

(** X15: the data of a successful multiple write is the request data cut
    after [4 * quantity] bytes (all of it when it is shorter): for both
    handlers, an answer [Success] carries [take (4 * quantity)] of the
    request data, so it has the 4 bytes of address and quantity exactly
    when the quantity is 1. *)
Theorem multiple_write_echo (frame : F) (env : Env) (w : World) (id : byte)
    (address quantity : Z) (data : list byte) (h : Handler) :
  parseWriteMultipleRequest (fwd w) frame = inl (id, address, quantity, data) →
  h = writeMultipleCoils ∨ h = writeMultipleRegisters →
  (h frame env w).1.2 = Success →
  (h frame env w).1.1 = take (Z.to_nat (quantity * 4)) (GetData frame)
  ∧ (length (h frame env w).1.1 = 4%nat ↔ quantity = 1).
Proof.
  intros Hparse Hh Hsuccess.
  pose proof (parseWriteMultipleRequest_range _ _ _ _ _ _ Hparse) as Hq.
  assert (Hlen : (6 ≤ length (GetData frame))%nat).
  { unfold parseWriteMultipleRequest in Hparse.
    destruct (Nat.ltb_spec (length (GetData frame)) 6);
      [discriminate | assumption]. }
  assert (Hecho : (h frame env w).1.1
                  = take (Z.to_nat (quantity * 4)) (GetData frame)).
  { destruct Hh as [-> | ->];
      [unfold writeMultipleCoils in * | unfold writeMultipleRegisters in *];
      revert Hsuccess; run_M; rewrite Hparse;
      (destruct (getClient (fwd w) id) as [client | err];
       [ | simpl; discriminate]); simpl;
      (destruct (backend env _ _); [ | simpl; discriminate]); simpl;
      intros _; unfold slice; rewrite !Nat.sub_0_r, !drop_0;
      (destruct (Z.ltb_spec (Z.of_nat (length (GetData frame))) (quantity * 4));
       simpl; [rewrite !take_ge by lia | ]; reflexivity). }
  split; [exact Hecho | ].
  rewrite Hecho, length_take. lia.
Qed.

End Started.

Lemma started_gateway_routes_witness :
  let frame := Scenario.request x02 x04 [x00; x00; x00; x02] in
  let w := (initClients Scenario.answering
              (fresh (loadConfig Scenario.fs "config.yaml").1)).2 in
  ∃ call, calls (readInputRegisters frame Scenario.answering w).2
          = calls w ++ [(x02, call)].
Proof.
  intros frame w.
  assert (Hok : (loadConfig Scenario.fs "config.yaml").2 = None)
    by (vm_compute; reflexivity).
  assert (Hin : In (x04, readInputRegisters (F := TCPFrame)) registerHandlers)
    by (simpl; auto 10).
  pose proof (started_gateway_routes Scenario.fs "config.yaml"
                Scenario.answering Scenario.answering frame x04
                readInputRegisters Hok Hin) as Hroute.
  cbv zeta in Hroute. fold w in Hroute.
  assert (Hdec : decodeError (fwd w) x04 frame = None)
    by (vm_compute; reflexivity).
  rewrite Hdec in Hroute.
  destruct Hroute as (call & Hcalls & _).
  exists call. exact Hcalls.
Defined.

Lemma multiple_write_echo_witness :
  let frame :=
    Scenario.request x01 x10 [x00; x10; x00; x01; x02; x00; x2a] in
  (writeMultipleRegisters frame Scenario.answering Scenario.started).1.1
  = [x00; x10; x00; x01].
Proof.
  intros frame.
  assert (Hparse : parseWriteMultipleRequest (fwd Scenario.started) frame
                   = inl (x01, 16, 1, [x00; x2a]))
    by (vm_compute; reflexivity).
  destruct (multiple_write_echo frame Scenario.answering Scenario.started
              x01 16 1 [x00; x2a] writeMultipleRegisters Hparse
              (or_intror eq_refl)) as [Hecho _].
  - vm_compute. reflexivity.
  - exact Hecho.
Defined.
